(** * Sebastian: sequence transforms (sebastian/core/transforms.py)

    A shallow embedding of the transform library of [sebastian.core.transforms]
    and the properties its specification states about it.

    Python values are modelled as follows.
    - A [Point] is a Python dict from attribute names to values: a finite map
      [gmap string value].  The values that the transforms compute with are
      integers and strings.
    - An [OSequence] is the list of its points ([_elements]).
    - A Python exception is a value of [exn]; code that may raise returns a
      [result].  Evaluation order follows the source, so the first exception
      the Python code would raise is the one the model returns.
    - Python 3 semantics is used for the arithmetic: integers are unbounded
      ([Z]), [%] is the floored remainder, [/] is true division on binary64
      floats, [int(x)] truncates toward zero.
    - The point transforms update the dict they are given and return it; the
      model returns the updated map. *)

From Stdlib Require Import ZArith String Ascii List Lia Permutation Sorted.
From Stdlib Require Import Floats DecimalString.
From stdpp Require Import base option list gmap strings fin_maps.

Local Open Scope string_scope.
Local Open Scope Z_scope.

(** ** Values and exceptions *)

Inductive value : Type :=
| VInt (z : Z)
| VStr (s : string).

#[global] Instance value_eq_dec : EqDecision value.
Proof. solve_decision. Defined.

Inductive exn : Type :=
| KeyError (key : string)
| TypeError
| IndexError
| ValueError (msg : string)
| ZeroDivisionError
| OverflowError.

Inductive result (A : Type) : Type :=
| Ok (a : A)
| Raise (e : exn).

Arguments Ok {A} a.
Arguments Raise {A} e.

#[global] Instance result_ret : MRet result := fun A a => Ok a.
#[global] Instance result_bind : MBind result := fun A B k m =>
  match m with
  | Ok a => k a
  | Raise e => Raise e
  end.

(** [for x in l: ...] collecting results, left to right; the first exception
    aborts the loop. *)
Fixpoint for_each {A B : Type} (f : A -> result B) (l : list A) : result (list B) :=
  match l with
  | [] => Ok []
  | x :: l' => y ← f x; ys ← for_each f l'; Ok (y :: ys)
  end.

(** ** Points *)

Abbreviation Point := (gmap string value).

(** Modelled from the spec: the attribute keys [OFFSET_64], [DURATION_64] and
    [MIDI_PITCH] are constants of [sebastian.core], which is not part of the
    sources; the specification names the attributes [offset], [duration] and
    [midi_pitch]. *)
Definition OFFSET_64 : string := "offset".
Definition DURATION_64 : string := "duration".
Definition MIDI_PITCH : string := "midi_pitch".

(** [point[key]] *)
Definition getitem (point : Point) (key : string) : result value :=
  match point !! key with
  | Some v => Ok v
  | None => Raise (KeyError key)
  end.

(** [point.get(key, default)] *)
Definition get_default (point : Point) (key : string) (default : value) : value :=
  match point !! key with
  | Some v => v
  | None => default
  end.

(** An operand of integer arithmetic; a string operand raises [TypeError]. *)
Definition as_int (v : value) : result Z :=
  match v with
  | VInt z => Ok z
  | VStr _ => Raise TypeError
  end.

(** ** Sequences *)

Definition OSequence : Type := list Point.

(** Modelled from the spec: [OSequence.map_points] is a method of
    [sebastian.core.OSequence], which is not part of the sources.  The
    specification: the sequence transform "applies [f] to every point of the
    input sequence [...] and returns a new sequence built from the (possibly
    mutated) points in original relative order". *)
Definition map_points (f : Point -> result Point) (seq : OSequence) : result OSequence :=
  for_each f seq.

(** The decorator [transform_sequence]: [f] with all of its arguments applied
    except [point] is sent to [seq.map_points]. *)
Definition transform_sequence (f : Point -> result Point) : OSequence -> result OSequence :=
  fun seq => map_points f seq.

(** ** invert *)

Definition invert_point (midi_pitch_pivot : Z) (point : Point) : result Point :=
  match point !! MIDI_PITCH with
  | Some v =>
      old ← as_int v;
      let interval := old - midi_pitch_pivot in
      Ok (<[MIDI_PITCH := VInt (midi_pitch_pivot - interval)]> point)
  | None => Ok point
  end.

Definition invert (midi_pitch_pivot : Z) : OSequence -> result OSequence :=
  transform_sequence (invert_point midi_pitch_pivot).

(** ** Strings *)

(** [s * n] on a string: [n] copies of [s], none when [n] is not positive. *)
Fixpoint str_repeat (s : string) (n : nat) : string :=
  match n with
  | O => ""
  | S n' => s ++ str_repeat s n'
  end.

Definition str_mul (s : string) (n : Z) : string := str_repeat s (Z.to_nat n).

(** [str(n)] for an integer: its decimal numeral. *)
Definition str_of_int (n : Z) : string := NilZero.string_of_int (Z.to_int n).

(** [s.lower()] on ASCII letters. *)
Definition lower_ascii (c : ascii) : ascii :=
  let n := nat_of_ascii c in
  if ((65 <=? n) && (n <=? 90))%nat then ascii_of_nat (n + 32) else c.

Fixpoint lower (s : string) : string :=
  match s with
  | EmptyString => EmptyString
  | String c s' => String (lower_ascii c) (lower s')
  end.

(** [l[i]] on a list: a negative index counts from the end, an index out of
    range raises [IndexError]. *)
Definition list_getitem {A : Type} (l : list A) (i : Z) : result A :=
  let n := Z.of_nat (length l) in
  let j := if i <? 0 then i + n else i in
  if (j <? 0) || (n <=? j) then Raise IndexError
  else match l !! Z.to_nat j with
       | Some x => Ok x
       | None => Raise IndexError
       end.

(** ** midi_pitch and lilypond *)

Section Notes.

(** [modifiers] and [letter] are imported from [sebastian.core.notes], which is
    not part of the sources: the accidental adjustment of a pitch and its
    letter name.  They are parameters of the development. *)
Variable modifiers : Z -> Z.
Variable letter : Z -> string.

Definition midi_pitch_point (point : Point) : result Point :=
  octave_v ← getitem point "octave";
  pitch_v ← getitem point "pitch";
  pitch ← as_int pitch_v;
  base ← list_getitem [2; 9; 4; 11; 5; 0; 7] (pitch `mod` 7);
  let midi_pitch := base + modifiers pitch in
  octave ← as_int octave_v;
  let midi_pitch := midi_pitch + 12 * octave in
  Ok (<[MIDI_PITCH := VInt midi_pitch]> point).

Definition midi_pitch : OSequence -> result OSequence :=
  transform_sequence midi_pitch_point.

Definition octave_string (octave : Z) : string :=
  if 4 <? octave then str_mul "'" (octave - 4)
  else if octave <? 4 then str_mul "," (4 - octave)
  else "".

Definition modifier_string (m : Z) : string :=
  if 0 <? m then str_mul "is" m
  else if m <? 0 then str_mul "es" m
  else "".

(** [str(int(64 / duration))]: the quotient truncated toward zero; a zero
    duration raises [ZeroDivisionError]. *)
Definition duration_string (duration : Z) : result string :=
  if duration =? 0 then Raise ZeroDivisionError
  else Ok (str_of_int (64 ÷ duration)).

Definition lilypond_point (point : Point) : result Point :=
  match point !! "lilypond" with
  | Some _ => Ok point
  | None =>
      octave_v ← getitem point "octave";
      pitch_v ← getitem point "pitch";
      duration_v ← getitem point DURATION_64;
      octave ← as_int octave_v;
      pitch ← as_int pitch_v;
      let m := modifiers pitch in
      let pitch_string := lower (letter pitch) ++ modifier_string m in
      duration ← as_int duration_v;
      duration_s ← duration_string duration;
      Ok (<["lilypond" := VStr (pitch_string ++ octave_string octave ++ duration_s)]> point)
  end.

Definition lilypond : OSequence -> result OSequence :=
  transform_sequence lilypond_point.

End Notes.

(** ** Floats

    Python floats are binary64, as are the kernel's primitive floats. *)

(** [float(n)]: the nearest binary64 value, ties to even; an integer too large
    for a finite float raises [OverflowError]. *)
Definition float_of_int (n : Z) : result float :=
  let x := SF2Prim (binary_normalize prec emax n 0 false) in
  if PrimFloat.is_infinity x then Raise OverflowError else Ok x.

(** [int(x)]: truncation toward zero; an infinity raises [OverflowError], a
    NaN [ValueError]. *)
Definition int_of_float (x : float) : result Z :=
  match Prim2SF x with
  | S754_zero _ => Ok 0
  | S754_infinity _ => Raise OverflowError
  | S754_nan => Raise (ValueError "cannot convert float NaN to integer")
  | S754_finite s m e =>
      let a := if 0 <=? e then Z.pos m * 2 ^ e else Z.pos m / 2 ^ (- e) in
      Ok (if s then - a else a)
  end.

(** [x / n] for a float [x] and an integer [n]. *)
Definition float_div_int (x : float) (n : Z) : result float :=
  d ← float_of_int n;
  if PrimFloat.is_zero d then Raise ZeroDivisionError else Ok (PrimFloat.div x d).

(** ** dynamics *)

(** The dict literal, in insertion order. *)
Definition _dynamic_markers_to_velocity : list (string * Z) :=
  [("pppppp", 10); ("ppppp", 16); ("pppp", 20); ("ppp", 24); ("pp", 36);
   ("p", 48); ("mp", 64); ("mf", 74); ("f", 84); ("ff", 94); ("fff", 114);
   ("ffff", 127)].

(** [d[key]] on the dict, [None] when [key not in d]. *)
Fixpoint dict_get (d : list (string * Z)) (key : string) : option Z :=
  match d with
  | [] => None
  | (k, v) :: d' => if String.eqb k key then Some v else dict_get d' key
  end.

Fixpoint join (sep : string) (l : list string) : string :=
  match l with
  | [] => ""
  | [x] => x
  | x :: l' => x ++ sep ++ join sep l'
  end.

(** [str(d.keys())] *)
Definition dict_keys_str (d : list (string * Z)) : string :=
  "dict_keys([" ++ join ", " (map (fun kv => "'" ++ fst kv ++ "'") d) ++ "])".

(** An argument of [dynamics]: a midi velocity or a dynamic marker. *)
Inductive dynamic : Type :=
| DInt (velocity : Z)
| DStr (marker : string).

(** ["%s" % d] *)
Definition dynamic_str (d : dynamic) : string :=
  match d with
  | DInt z => str_of_int z
  | DStr s => s
  end.

(** The first [if]/[elif]/[else] of the transform: the start velocity. *)
Definition resolve_start (start : dynamic) : result Z :=
  match start with
  | DInt z => Ok z
  | DStr s =>
      match dict_get _dynamic_markers_to_velocity s with
      | Some v => Ok v
      | None =>
          Raise (ValueError ("Unknown start dynamic: " ++ dynamic_str start
                             ++ ", must be in "
                             ++ dict_keys_str _dynamic_markers_to_velocity))
      end
  end.

(** The second one: the end velocity.  The message of its [else] branch is
    formatted with [start], as in the source. *)
Definition resolve_end (start : dynamic) (end_ : option dynamic) (start_velocity : Z)
  : result Z :=
  match end_ with
  | None => Ok start_velocity
  | Some (DInt z) => Ok z
  | Some (DStr s) =>
      match dict_get _dynamic_markers_to_velocity s with
      | Some v => Ok v
      | None =>
          Raise (ValueError ("Unknown end dynamic: " ++ dynamic_str start
                             ++ ", must be in "
                             ++ dict_keys_str _dynamic_markers_to_velocity))
      end
  end.

(** [range(n)] *)
Definition range (n : nat) : list Z := map Z.of_nat (seq 0 n).

(** [int(start_velocity + velocity_interval * pos)] *)
Definition velocity_at (start_velocity : Z) (velocity_interval : float) (pos : Z)
  : result Z :=
  fpos ← float_of_int pos;
  fstart ← float_of_int start_velocity;
  int_of_float (PrimFloat.add fstart (PrimFloat.mul velocity_interval fpos)).

Definition set_velocity (point : Point) (velocity : Z) : Point :=
  <["velocity" := VInt velocity]> point.

(** The transform returned by [dynamics(start, end)]; [end_] is [None] when
    the argument is left out. *)
Definition dynamics (start : dynamic) (end_ : option dynamic) (sequence : OSequence)
  : result OSequence :=
  start_velocity ← resolve_start start;
  end_velocity ← resolve_end start end_ start_velocity;
  let retval := sequence in
  if (length retval =? 0)%nat then Ok retval
  else
    fend ← float_of_int end_velocity;
    fstart ← float_of_int start_velocity;
    velocity_interval ←
      float_div_int (PrimFloat.sub fend fstart) (Z.of_nat (length sequence) - 1);
    velocities ←
      for_each (velocity_at start_velocity velocity_interval) (range (length sequence));
    Ok (zip_with set_velocity retval velocities).

(** The formula of the specification:
    [floor(start_v + pos * (end_v - start_v) / (n - 1))]. *)
Definition spec_velocity (start_v end_v : Z) (n pos : Z) : Z :=
  (start_v * (n - 1) + pos * (end_v - start_v)) / (n - 1).

(** A valid argument of [dynamics]: a velocity, or a marker of the table. *)
Definition valid_dynamic (d : dynamic) : Prop :=
  match d with
  | DInt _ => True
  | DStr s => is_Some (dict_get _dynamic_markers_to_velocity s)
  end.

Definition valid_end (end_ : option dynamic) : Prop :=
  match end_ with
  | None => True
  | Some d => valid_dynamic d
  end.

(** ** reverse *)

(** [point[key]] used as an integer operand. *)
Definition getitem_int (point : Point) (key : string) : result Z :=
  v ← getitem point key; as_int v.

(** [point.get(DURATION_64, 0)] used as an integer operand. *)
Definition duration_or_zero (point : Point) : result Z :=
  as_int (get_default point DURATION_64 (VInt 0)).

Fixpoint max_of (x : Z) (l : list Z) : Z :=
  match l with
  | [] => x
  | y :: l' => Z.max x (max_of y l')
  end.

Definition point_end (point : Point) : result Z :=
  offset ← getitem_int point OFFSET_64;
  duration ← duration_or_zero point;
  Ok (offset + duration).

(** Modelled from the spec: [OSequence.next_offset] is a method of
    [sebastian.core.OSequence], which is not part of the sources.  The
    specification: "[next_offset()] returns [max(offset + duration)] over all
    elements (or 0 for empty)", the duration counting as 0 when absent. *)
Definition next_offset (seq : OSequence) : result Z :=
  ends ← for_each point_end seq;
  Ok (match ends with
      | [] => 0
      | e :: es => max_of e es
      end).

Definition shift_point (shift : Z) (point : Point) : result Point :=
  offset ← getitem_int point OFFSET_64;
  Ok (<[OFFSET_64 := VInt (offset + shift)]> point).

(** Modelled from the spec: [OSequence.__add__] is a method of
    [sebastian.core.OSequence], which is not part of the sources.  The
    specification: concatenation "appends the right sequence's elements with
    their offsets shifted by the left sequence's [next_offset()]". *)
Definition concatenate (left right : OSequence) : result OSequence :=
  shift ← next_offset left;
  shifted ← for_each (shift_point shift) right;
  Ok (left ++ shifted)%list.

(** [sorted(l, key=key)] for integer keys: the keys are computed first, the
    sort is stable. *)
Fixpoint insert_by_key {A : Type} (k : Z) (x : A) (l : list (Z * A)) : list (Z * A) :=
  match l with
  | [] => [(k, x)]
  | (k', y) :: l' =>
      if k <=? k' then (k, x) :: (k', y) :: l'
      else (k', y) :: insert_by_key k x l'
  end.

Fixpoint sort_keyed {A : Type} (l : list (Z * A)) : list (Z * A) :=
  match l with
  | [] => []
  | (k, x) :: l' => insert_by_key k x (sort_keyed l')
  end.

Definition sorted_by_key {A : Type} (key : A -> result Z) (l : list A) : result (list A) :=
  keys ← for_each key l;
  Ok (map snd (sort_keyed (zip keys l))).

(** The placeholder [{OFFSET_64: 0}]. *)
Definition anchor : Point := {[OFFSET_64 := VInt 0]}.

(** [v != 0] *)
Definition value_nonzero (v : value) : bool :=
  match v with
  | VInt 0 => false
  | _ => true
  end.

(** The body of the loop up to the test: the copy of [point] with its new
    offset. *)
Definition reflect_point (last_offset : Z) (point : Point) : result Point :=
  offset ← getitem_int point OFFSET_64;
  duration ← duration_or_zero point;
  Ok (<[OFFSET_64 := VInt (last_offset - offset - duration)]> point).

(** The transform returned by [reverse()].  The loop appends the points that
    pass the test; no exception comes from the test, so the points are
    computed first and filtered afterwards. *)
Definition reverse (sequence : OSequence) : result OSequence :=
  last_offset ← next_offset sequence;
  old_sequence ←
    match sequence with
    | [] => Ok sequence
    | first :: _ =>
        v ← getitem first OFFSET_64;
        if value_nonzero v then concatenate [anchor] sequence else Ok sequence
    end;
  new_points ← for_each (reflect_point last_offset) old_sequence;
  let new_elements := filter (fun new_point : Point => new_point <> anchor) new_points in
  sorted_by_key (fun x => getitem_int x OFFSET_64) new_elements.

(** *** Reading a well-formed point *)

Definition offset_of (point : Point) : Z :=
  match point !! OFFSET_64 with
  | Some (VInt z) => z
  | _ => 0
  end.

Definition duration_of (point : Point) : Z :=
  match point !! DURATION_64 with
  | Some (VInt z) => z
  | _ => 0
  end.

(** A point with an integer offset and, when it has one, an integer
    duration. *)
Definition timed (point : Point) : Prop :=
  (exists z, point !! OFFSET_64 = Some (VInt z)) /\
  (point !! DURATION_64 = None \/ exists d, point !! DURATION_64 = Some (VInt d)).

(** The point with its offset replaced by [last_offset - offset - duration]. *)
Definition reflected (last_offset : Z) (point : Point) : Point :=
  <[OFFSET_64 := VInt (last_offset - offset_of point - duration_of point)]> point.

(** [max(offset + duration)] over the sequence, 0 when it is empty. *)
Definition max_end (seq : OSequence) : Z :=
  match map (fun point => offset_of point + duration_of point) seq with
  | [] => 0
  | e :: es => max_of e es
  end.

(** The sequence the loop runs over: with the placeholder in front when the
    first offset is not 0. *)
Definition anchor_prefixed (seq : OSequence) : OSequence :=
  match seq with
  | [] => []
  | first :: _ => if offset_of first =? 0 then seq else anchor :: seq
  end.

(** The order of a sorted list of keyed elements. *)
Definition key_le {A : Type} (a b : Z * A) : Prop := fst a <= fst b.

Definition sort_by {A : Type} (key : A -> Z) (l : list A) : list A :=
  map snd (sort_keyed (map (fun x => (key x, x)) l)).

(** ** add, transpose, stretch and the key transforms *)

(** [point.update(properties)]: the entries of [properties] replace those of
    [point] under the same key. *)
Definition add_point (properties : Point) (point : Point) : result Point :=
  Ok (properties ∪ point).

Definition add (properties : Point) : OSequence -> result OSequence :=
  transform_sequence (add_point properties).

Definition transpose_point (semitones : Z) (point : Point) : result Point :=
  match point !! MIDI_PITCH with
  | Some v =>
      old ← as_int v;
      Ok (<[MIDI_PITCH := VInt (old + semitones)]> point)
  | None => Ok point
  end.

Definition transpose (semitones : Z) : OSequence -> result OSequence :=
  transform_sequence (transpose_point semitones).

(** The multiplier of [stretch]: an integer or a float. *)
Inductive number : Type :=
| NInt (z : Z)
| NFloat (x : float).

Section Stretch.

(** [int(s)] on a string is Python's numeral parser, a builtin: it is a
    parameter.  It is reached only when the attribute is a string and the
    multiplier an integer ([s * m] is then a string). *)
Variable int_of_str : string -> result Z.

(** [int(v * multiplier)] *)
Definition scaled (v : value) (multiplier : number) : result Z :=
  match v, multiplier with
  | VInt z, NInt m => Ok (z * m)
  | VInt z, NFloat x => f ← float_of_int z; int_of_float (PrimFloat.mul f x)
  | VStr s, NInt m => int_of_str (str_mul s m)
  | VStr _, NFloat _ => Raise TypeError
  end.

Definition stretch_point (multiplier : number) (point : Point) : result Point :=
  offset ← getitem point OFFSET_64;
  new_offset ← scaled offset multiplier;
  let point := <[OFFSET_64 := VInt new_offset]> point in
  match point !! DURATION_64 with
  | Some duration =>
      new_duration ← scaled duration multiplier;
      Ok (<[DURATION_64 := VInt new_duration]> point)
  | None => Ok point
  end.

Definition stretch (multiplier : number) : OSequence -> result OSequence :=
  transform_sequence (stretch_point multiplier).

End Stretch.

(** The [key] argument of the key transforms: an object of the key model,
    which is not part of the sources, with the two methods the transforms
    call.  A method may raise. *)
Record Key : Type := {
  degree_to_pitch : value -> result value;
  degree_to_pitch_and_octave : value -> result (value * value)
}.

Definition degree_in_key_point (key : Key) (point : Point) : result Point :=
  degree ← getitem point "degree";
  pitch ← degree_to_pitch key degree;
  Ok (<["pitch" := pitch]> point).

Definition degree_in_key (key : Key) : OSequence -> result OSequence :=
  transform_sequence (degree_in_key_point key).

Definition degree_in_key_with_octave_point (key : Key) (base_octave : Z) (point : Point)
  : result Point :=
  degree ← getitem point "degree";
  pitch_octave ← degree_to_pitch_and_octave key degree;
  let point := <["pitch" := fst pitch_octave]> point in
  octave ← as_int (snd pitch_octave);
  Ok (<["octave" := VInt (octave + base_octave)]> point).

Definition degree_in_key_with_octave (key : Key) (base_octave : Z)
  : OSequence -> result OSequence :=
  transform_sequence (degree_in_key_with_octave_point key base_octave).

(** A well-formed point with its offset and duration multiplied by [m]. *)
Definition stretched_by (m : Z) (point : Point) : Point :=
  let moved := <[OFFSET_64 := VInt (offset_of point * m)]> point in
  match point !! DURATION_64 with
  | Some _ => <[DURATION_64 := VInt (duration_of point * m)]> moved
  | None => moved
  end.

(** The velocities [dynamics] assigns to a sequence of [n] points: none when
    [n] is 0. *)
Definition dynamics_velocities (start : dynamic) (end_ : option dynamic) (n : nat)
  : result (list Z) :=
  start_velocity ← resolve_start start;
  end_velocity ← resolve_end start end_ start_velocity;
  if (n =? 0)%nat then Ok []
  else
    fend ← float_of_int end_velocity;
    fstart ← float_of_int start_velocity;
    velocity_interval ← float_div_int (PrimFloat.sub fend fstart) (Z.of_nat n - 1);
    for_each (velocity_at start_velocity velocity_interval) (range n).

(** * Properties *)

(** ** Generic facts on [for_each] *)

Lemma bind_Ok {A B : Type} (a : A) (f : A -> result B) : (Ok a ≫= f) = f a.
Proof. reflexivity. Qed.

Lemma for_each_ok_length {A B : Type} (f : A -> result B) (l : list A) (r : list B) :
  for_each f l = Ok r -> length r = length l.
Proof.
  revert r. induction l as [|x l IH]; intros r; simpl.
  - intros [= <-]. reflexivity.
  - destruct (f x) as [y|e]; simpl; [|discriminate].
    destruct (for_each f l) as [ys|e]; simpl; [|discriminate].
    intros [= <-]. simpl. f_equal. now apply IH.
Qed.

Lemma for_each_id_on {A : Type} (f : A -> result A) (l : list A) :
  Forall (fun x => f x = Ok x) l -> for_each f l = Ok l.
Proof.
  induction 1 as [|x l Hx _ IH]; simpl; [reflexivity|].
  rewrite Hx. simpl. rewrite IH. reflexivity.
Qed.

(** ** invert *)

(** C7. For every pivot and every point carrying an integer [midi_pitch],
    [invert] sets it to [pivot - (old - pivot)], and a second application
    gives back the original point, hence the original [midi_pitch]. *)
Theorem invert_point_involutive (pivot old : Z) (point : Point) :
  point !! MIDI_PITCH = Some (VInt old) ->
  exists point',
    invert_point pivot point = Ok point' /\
    point' !! MIDI_PITCH = Some (VInt (pivot - (old - pivot))) /\
    invert_point pivot point' = Ok point.
Proof.
  intros Hold.
  exists (<[MIDI_PITCH := VInt (pivot - (old - pivot))]> point).
  unfold invert_point. rewrite Hold. simpl.
  split; [reflexivity|].
  rewrite lookup_insert_eq. simpl.
  split; [reflexivity|].
  f_equal. rewrite insert_insert_eq.
  replace (pivot - (pivot - (old - pivot) - pivot)) with old by lia.
  now apply insert_id.
Qed.

Lemma invert_point_involutive_witness :
  exists point',
    invert_point 60 {[MIDI_PITCH := VInt 64]} = Ok point' /\
    point' !! MIDI_PITCH = Some (VInt (60 - (64 - 60))) /\
    invert_point 60 point' = Ok {[MIDI_PITCH := VInt 64]}.
Proof.
  apply (invert_point_involutive 60 64 {[MIDI_PITCH := VInt 64]}).
  reflexivity.
Defined.

(** ** midi_pitch *)

Lemma list_getitem_in_range {A : Type} (l : list A) (i : Z) :
  0 <= i < Z.of_nat (length l) ->
  exists x, l !! Z.to_nat i = Some x /\ list_getitem l i = Ok x.
Proof.
  intros Hi. unfold list_getitem. cbv zeta.
  destruct (Z.ltb_spec i 0) as [?|_]; [lia|].
  destruct (Z.ltb_spec i 0) as [?|_]; [lia|].
  destruct (Z.leb_spec (Z.of_nat (length l)) i) as [?|_]; [lia|]. simpl.
  destruct (lookup_lt_is_Some_2 l (Z.to_nat i)) as [x Hx]; [lia|].
  exists x. rewrite Hx. auto.
Qed.

(** C10. For every integer pitch the index [pitch mod 7] lies in [0, 7), so
    the table lookup never raises, and for every point carrying integer
    [pitch] and [octave] the transform stores
    [table[pitch mod 7] + modifiers(pitch) + 12 * octave]. *)
Theorem midi_pitch_point_total (modifiers : Z -> Z) (point : Point) (pitch octave : Z) :
  point !! "pitch" = Some (VInt pitch) ->
  point !! "octave" = Some (VInt octave) ->
  0 <= pitch `mod` 7 < 7 /\
  exists base,
    [2; 9; 4; 11; 5; 0; 7] !! Z.to_nat (pitch `mod` 7) = Some base /\
    list_getitem [2; 9; 4; 11; 5; 0; 7] (pitch `mod` 7) = Ok base /\
    midi_pitch_point modifiers point
    = Ok (<[MIDI_PITCH := VInt (base + modifiers pitch + 12 * octave)]> point).
Proof.
  intros Hp Ho.
  assert (Hr : 0 <= pitch `mod` 7 < 7) by (apply Z.mod_pos_bound; lia).
  split; [exact Hr|].
  destruct (list_getitem_in_range [2; 9; 4; 11; 5; 0; 7] (pitch `mod` 7))
    as (base & Hl & Hg); [simpl; lia|].
  exists base. repeat split; [exact Hl|exact Hg|].
  unfold midi_pitch_point, getitem. rewrite Ho, Hp. simpl.
  rewrite Hg. reflexivity.
Qed.

Lemma midi_pitch_point_total_witness :
  0 <= (-4) `mod` 7 < 7 /\
  exists base,
    [2; 9; 4; 11; 5; 0; 7] !! Z.to_nat ((-4) `mod` 7) = Some base /\
    list_getitem [2; 9; 4; 11; 5; 0; 7] ((-4) `mod` 7) = Ok base /\
    midi_pitch_point (fun _ => -1) {["pitch" := VInt (-4); "octave" := VInt 4]}
    = Ok (<[MIDI_PITCH := VInt (base + -1 + 12 * 4)]>
            {["pitch" := VInt (-4); "octave" := VInt 4]}).
Proof.
  apply (midi_pitch_point_total (fun _ => -1)
           {["pitch" := VInt (-4); "octave" := VInt 4]} (-4) 4);
    reflexivity.
Defined.

(** ** lilypond *)

Lemma string_length_append (s t : string) :
  String.length (s ++ t) = (String.length s + String.length t)%nat.
Proof. induction s as [|c s IH]; simpl; [reflexivity|]. now rewrite IH. Qed.

Lemma str_mul_nonpos (s : string) (n : Z) : n <= 0 -> str_mul s n = "".
Proof.
  intros Hn. unfold str_mul.
  replace (Z.to_nat n) with O by lia. reflexivity.
Qed.

Lemma str_mul_succ (s : string) (n : Z) :
  0 <= n -> str_mul s (n + 1) = s ++ str_mul s n.
Proof.
  intros Hn. unfold str_mul.
  replace (Z.to_nat (n + 1)) with (S (Z.to_nat n)) by lia. reflexivity.
Qed.

Lemma str_mul_length (s : string) (n : Z) :
  String.length (str_mul s n) = (Z.to_nat n * String.length s)%nat.
Proof.
  unfold str_mul. induction (Z.to_nat n) as [|k IH]; simpl; [reflexivity|].
  rewrite string_length_append, IH. reflexivity.
Qed.

(** The sharp side of the accidental marker: one [is] per positive unit. *)
Lemma modifier_string_sharp (m : Z) :
  0 < m -> modifier_string m = str_mul "is" m.
Proof.
  intros Hm. unfold modifier_string.
  destruct (Z.ltb_spec 0 m); [reflexivity|lia].
Qed.

(** The flat side: [es * m] with a negative [m] is the empty string. *)
Lemma modifier_string_flat (m : Z) :
  m < 0 -> modifier_string m = "".
Proof.
  intros Hm. unfold modifier_string.
  destruct (Z.ltb_spec 0 m); [lia|].
  destruct (Z.ltb_spec m 0); [|lia].
  apply str_mul_nonpos. lia.
Qed.

(** What [lilypond] stores for a point that has no rendering yet. *)
Lemma lilypond_point_render (modifiers : Z -> Z) (letter : Z -> string)
    (point : Point) (pitch octave duration : Z) :
  point !! "lilypond" = None ->
  point !! "pitch" = Some (VInt pitch) ->
  point !! "octave" = Some (VInt octave) ->
  point !! DURATION_64 = Some (VInt duration) ->
  duration <> 0 ->
  lilypond_point modifiers letter point
  = Ok (<["lilypond" :=
           VStr ((lower (letter pitch) ++ modifier_string (modifiers pitch))
                 ++ octave_string octave ++ str_of_int (64 ÷ duration))]> point).
Proof.
  intros Hl Hp Ho Hd Hnz.
  unfold lilypond_point, getitem, duration_string.
  rewrite Hl, Ho, Hp, Hd. simpl.
  destruct (Z.eqb_spec duration 0); [contradiction|]. reflexivity.
Qed.

(** C3. For a point whose accidental adjustment [m] is negative the
    transform renders no accidental marker at all: the stored string is the
    letter followed directly by the octave and duration tokens, and it is not
    the string with the flat token repeated [abs m] times. *)
Theorem lilypond_flat_marker_missing (modifiers : Z -> Z) (letter : Z -> string)
    (point : Point) (pitch octave duration : Z) :
  point !! "lilypond" = None ->
  point !! "pitch" = Some (VInt pitch) ->
  point !! "octave" = Some (VInt octave) ->
  point !! DURATION_64 = Some (VInt duration) ->
  duration <> 0 ->
  modifiers pitch < 0 ->
  let rendered :=
    (lower (letter pitch) ++ "")
    ++ octave_string octave ++ str_of_int (64 ÷ duration) in
  let claimed :=
    (lower (letter pitch) ++ str_mul "es" (Z.abs (modifiers pitch)))
    ++ octave_string octave ++ str_of_int (64 ÷ duration) in
  lilypond_point modifiers letter point = Ok (<["lilypond" := VStr rendered]> point)
  /\ rendered <> claimed.
Proof.
  intros Hl Hp Ho Hd Hnz Hm rendered claimed. split.
  - rewrite (lilypond_point_render modifiers letter point pitch octave duration)
      by assumption.
    rewrite modifier_string_flat by assumption. reflexivity.
  - intros Heq. apply (f_equal String.length) in Heq.
    unfold rendered, claimed in Heq.
    rewrite !string_length_append, str_mul_length in Heq.
    simpl in Heq. lia.
Qed.

Lemma lilypond_flat_marker_missing_witness :
  let point : Point :=
    {["pitch" := VInt (-5); "octave" := VInt 4; DURATION_64 := VInt 16]} in
  lilypond_point (fun _ => -1) (fun _ => "E") point
  = Ok (<["lilypond" := VStr "e4"]> point)
  /\ "e4" <> "ees4".
Proof.
  exact (lilypond_flat_marker_missing (fun _ => -1) (fun _ => "E")
           {["pitch" := VInt (-5); "octave" := VInt 4; DURATION_64 := VInt 16]}
           (-5) 4 16
           eq_refl eq_refl eq_refl eq_refl
           ltac:(discriminate) ltac:(reflexivity)).
Defined.

Lemma lilypond_point_cached (modifiers : Z -> Z) (letter : Z -> string)
    (point : Point) (v : value) :
  point !! "lilypond" = Some v ->
  lilypond_point modifiers letter point = Ok point.
Proof. intros Hv. unfold lilypond_point. now rewrite Hv. Qed.

Lemma lilypond_point_stores (modifiers : Z -> Z) (letter : Z -> string)
    (point once : Point) :
  lilypond_point modifiers letter point = Ok once ->
  is_Some (once !! "lilypond").
Proof.
  unfold lilypond_point. intros Hrun.
  destruct (point !! "lilypond") as [v|] eqn:Hl.
  - injection Hrun as <-. rewrite Hl. eauto.
  - destruct (getitem point "octave") as [ov|]; simpl in Hrun; [|discriminate].
    destruct (getitem point "pitch") as [pv|]; simpl in Hrun; [|discriminate].
    destruct (getitem point DURATION_64) as [dv|]; simpl in Hrun; [|discriminate].
    destruct (as_int ov) as [o|]; simpl in Hrun; [|discriminate].
    destruct (as_int pv) as [p|]; simpl in Hrun; [|discriminate].
    destruct (as_int dv) as [d|]; simpl in Hrun; [|discriminate].
    destruct (duration_string d) as [ds|]; simpl in Hrun; [|discriminate].
    injection Hrun as <-. rewrite lookup_insert_eq. eauto.
Qed.

(** C8. A point that already carries a value under [lilypond] is returned as
    it is, whatever else it holds or lacks; and whenever the transform
    succeeds, applying it again returns the same point, so the same
    [lilypond] string. *)
Theorem lilypond_point_memoized (modifiers : Z -> Z) (letter : Z -> string)
    (point : Point) :
  (forall v, point !! "lilypond" = Some v ->
             lilypond_point modifiers letter point = Ok point) /\
  (forall once, lilypond_point modifiers letter point = Ok once ->
                is_Some (once !! "lilypond") /\
                lilypond_point modifiers letter once = Ok once).
Proof.
  split.
  - apply lilypond_point_cached.
  - intros once Hrun.
    destruct (lilypond_point_stores _ _ _ _ Hrun) as [v Hv].
    split; [eauto|]. now apply lilypond_point_cached with v.
Qed.

Lemma lilypond_point_memoized_witness :
  let cached : Point := {["lilypond" := VStr "c'4"]} in
  let fresh : Point :=
    {["pitch" := VInt 2; "octave" := VInt 5; DURATION_64 := VInt 16]} in
  lilypond_point (fun _ => 1) (fun _ => "F") cached = Ok cached /\
  lilypond_point (fun _ => 1) (fun _ => "F") (<["lilypond" := VStr "fis'4"]> fresh)
  = Ok (<["lilypond" := VStr "fis'4"]> fresh).
Proof.
  split.
  - exact (proj1 (lilypond_point_memoized (fun _ => 1) (fun _ => "F")
                    {["lilypond" := VStr "c'4"]}) (VStr "c'4") eq_refl).
  - exact (proj2 (proj2 (lilypond_point_memoized (fun _ => 1) (fun _ => "F")
                    {["pitch" := VInt 2; "octave" := VInt 5; DURATION_64 := VInt 16]})
                    _ eq_refl)).
Defined.

(** The lifted transform returns a sequence of rendered points as it is. *)
Lemma lilypond_memoized_sequence (modifiers : Z -> Z) (letter : Z -> string)
    (seq : OSequence) :
  Forall (fun point : Point => is_Some (point !! "lilypond")) seq ->
  lilypond modifiers letter seq = Ok seq.
Proof.
  intros Hall. unfold lilypond, transform_sequence, map_points.
  apply for_each_id_on.
  eapply Forall_impl; [exact Hall|].
  intros point [v Hv]. simpl.
  exact (lilypond_point_cached modifiers letter point v Hv).
Qed.

(** ** dynamics *)

Lemma resolve_start_valid (start : dynamic) :
  valid_dynamic start -> exists v, resolve_start start = Ok v.
Proof.
  destruct start as [z|s]; simpl.
  - eauto.
  - intros [v Hv]. rewrite Hv. eauto.
Qed.

Lemma resolve_end_valid (start : dynamic) (end_ : option dynamic) (start_velocity : Z) :
  valid_end end_ -> exists v, resolve_end start end_ start_velocity = Ok v.
Proof.
  destruct end_ as [[z|s]|]; simpl.
  - eauto.
  - intros [v Hv]. rewrite Hv. eauto.
  - eauto.
Qed.

(** C9. With valid arguments the transform returns the empty sequence for the
    empty sequence: the early return comes before the division. *)
Theorem dynamics_empty (start : dynamic) (end_ : option dynamic) :
  valid_dynamic start ->
  valid_end end_ ->
  dynamics start end_ [] = Ok [].
Proof.
  intros Hs He. unfold dynamics.
  destruct (resolve_start_valid start Hs) as [sv ->]. simpl.
  destruct (resolve_end_valid start end_ sv He) as [ev ->]. reflexivity.
Qed.

Lemma dynamics_empty_witness :
  dynamics (DStr "p") (Some (DStr "ff")) [] = Ok [].
Proof.
  apply (dynamics_empty (DStr "p") (Some (DStr "ff"))); simpl; eauto.
Defined.

(** On a sequence of one point the divisor [len(sequence) - 1] is zero. *)
Lemma dynamics_single_point_division (start : dynamic) (end_ : option dynamic)
    (point : Point) (sv ev : Z) (fs fe : float) :
  resolve_start start = Ok sv ->
  resolve_end start end_ sv = Ok ev ->
  float_of_int sv = Ok fs ->
  float_of_int ev = Ok fe ->
  dynamics start end_ [point] = Raise ZeroDivisionError.
Proof.
  intros Hs He Hfs Hfe. unfold dynamics.
  rewrite Hs. simpl. rewrite He. simpl. rewrite Hfe. simpl. rewrite Hfs. simpl.
  reflexivity.
Qed.

(** C1. On a sequence of one point the transform does not return the sequence:
    [dynamics('p', 'f')] raises [ZeroDivisionError], and whatever the
    arguments the call ends in an exception. *)
Theorem dynamics_single_point_raises (point : Point) :
  dynamics (DStr "p") (Some (DStr "f")) [point] = Raise ZeroDivisionError /\
  dynamics (DStr "p") None [point] = Raise ZeroDivisionError /\
  forall start end_, exists e, dynamics start end_ [point] = Raise e.
Proof.
  split; [reflexivity|]. split; [reflexivity|].
  intros start end_. unfold dynamics.
  destruct (resolve_start start) as [sv|e]; simpl; [|eauto].
  destruct (resolve_end start end_ sv) as [ev|e]; simpl; [|eauto].
  destruct (float_of_int ev) as [fe|e]; simpl; [|eauto].
  destruct (float_of_int sv) as [fs|e]; simpl; [|eauto].
  eauto.
Qed.

(** The start marker is reported by name when it is unknown. *)
Lemma dynamics_unknown_start (s : string) (end_ : option dynamic) (seq : OSequence) :
  dict_get _dynamic_markers_to_velocity s = None ->
  dynamics (DStr s) end_ seq
  = Raise (ValueError ("Unknown start dynamic: " ++ s ++ ", must be in "
                       ++ dict_keys_str _dynamic_markers_to_velocity)).
Proof. intros Hs. unfold dynamics, resolve_start. rewrite Hs. reflexivity. Qed.

(** The message for an unknown end marker is formatted with [start]. *)
Lemma dynamics_unknown_end (start : dynamic) (s : string) (seq : OSequence) :
  valid_dynamic start ->
  dict_get _dynamic_markers_to_velocity s = None ->
  dynamics start (Some (DStr s)) seq
  = Raise (ValueError ("Unknown end dynamic: " ++ dynamic_str start ++ ", must be in "
                       ++ dict_keys_str _dynamic_markers_to_velocity)).
Proof.
  intros Hv Hs. unfold dynamics, resolve_end.
  destruct (resolve_start_valid start Hv) as [sv ->].
  rewrite Hs. reflexivity.
Qed.

(** C4. With the unknown marker [xx] as the end argument and the valid start
    [p], the error message names [p]; [xx] does not occur in it. *)
Theorem dynamics_unknown_end_names_start (seq : OSequence) :
  let msg :=
    "Unknown end dynamic: p, must be in dict_keys(['pppppp', 'ppppp', 'pppp', 'ppp', 'pp', 'p', 'mp', 'mf', 'f', 'ff', 'fff', 'ffff'])" in
  dict_get _dynamic_markers_to_velocity "xx" = None /\
  dynamics (DStr "p") (Some (DStr "xx")) seq = Raise (ValueError msg) /\
  String.index 0 "xx" msg = None.
Proof.
  intros msg. split; [reflexivity|]. split; [|reflexivity].
  rewrite dynamics_unknown_end.
  - reflexivity.
  - simpl. eauto.
  - reflexivity.
Qed.

(** The two worked examples of the specification. *)
Lemma dynamics_ramp_example (p0 p1 p2 : Point) :
  dynamics (DStr "p") (Some (DStr "f")) [p0; p1; p2]
  = Ok [set_velocity p0 48; set_velocity p1 66; set_velocity p2 84].
Proof. reflexivity. Qed.

Lemma dynamics_constant_example (p0 p1 p2 : Point) :
  dynamics (DStr "p") None [p0; p1; p2]
  = Ok [set_velocity p0 48; set_velocity p1 48; set_velocity p2 48].
Proof. reflexivity. Qed.

(** C5. A diminuendo from [ff] (94) to [pp] (36) over eight points: the last
    point receives 35, where the formula of the specification gives 36. *)
Theorem dynamics_ramp_misses_end (p0 p1 p2 p3 p4 p5 p6 p7 : Point) :
  dynamics (DStr "ff") (Some (DStr "pp")) [p0; p1; p2; p3; p4; p5; p6; p7]
  = Ok [set_velocity p0 94; set_velocity p1 85; set_velocity p2 77;
        set_velocity p3 69; set_velocity p4 60; set_velocity p5 52;
        set_velocity p6 44; set_velocity p7 35] /\
  spec_velocity 94 36 8 7 = 36.
Proof. split; reflexivity. Qed.

(** ** Sorting by key *)

Lemma for_each_map {A B : Type} (f : A -> result B) (g : A -> B) (l : list A) :
  Forall (fun x => f x = Ok (g x)) l -> for_each f l = Ok (map g l).
Proof.
  induction 1 as [|x l Hx _ IH]; simpl; [reflexivity|].
  rewrite Hx. simpl. rewrite IH. reflexivity.
Qed.

Lemma insert_by_key_perm {A : Type} (k : Z) (x : A) (l : list (Z * A)) :
  Permutation ((k, x) :: l) (insert_by_key k x l).
Proof.
  induction l as [|[k' y] l IH]; simpl; [reflexivity|].
  destruct (k <=? k'); [reflexivity|].
  rewrite perm_swap. now apply perm_skip.
Qed.

Lemma sort_keyed_perm {A : Type} (l : list (Z * A)) :
  Permutation l (sort_keyed l).
Proof.
  induction l as [|[k x] l IH]; simpl; [reflexivity|].
  rewrite <- insert_by_key_perm. now apply perm_skip.
Qed.

Lemma insert_by_key_sorted {A : Type} (k : Z) (x : A) (l : list (Z * A)) :
  StronglySorted key_le l -> StronglySorted key_le (insert_by_key k x l).
Proof.
  induction 1 as [|[k' y] l Hs IH Hall]; simpl.
  - repeat constructor.
  - destruct (Z.leb_spec k k') as [Hle|Hgt].
    + constructor; [now constructor|].
      constructor; [exact Hle|].
      eapply Forall_impl; [exact Hall|].
      intros [k'' z]. unfold key_le. simpl in *. lia.
    + constructor; [exact IH|].
      eapply Permutation_Forall; [apply insert_by_key_perm|].
      constructor; [unfold key_le; simpl; lia|exact Hall].
Qed.

Lemma sort_keyed_sorted {A : Type} (l : list (Z * A)) :
  StronglySorted key_le (sort_keyed l).
Proof.
  induction l as [|[k x] l IH]; simpl; [constructor|].
  now apply insert_by_key_sorted.
Qed.

Lemma sort_by_perm {A : Type} (key : A -> Z) (l : list A) :
  Permutation l (sort_by key l).
Proof.
  unfold sort_by.
  rewrite <- (sort_keyed_perm (map (fun x => (key x, x)) l)).
  rewrite map_map. simpl. now rewrite map_id.
Qed.

Lemma keyed_sorted_map_snd {A : Type} (key : A -> Z) (l : list (Z * A)) :
  Forall (fun a => fst a = key (snd a)) l ->
  StronglySorted key_le l ->
  StronglySorted (fun x y => key x <= key y) (map snd l).
Proof.
  intros Hkeys Hs. induction Hs as [|a l Hs IH Hall]; simpl; [constructor|].
  inversion Hkeys as [|? ? Ha Hl]; subst.
  constructor; [now apply IH|].
  apply Forall_map.
  rewrite Forall_forall in Hall, Hl. apply Forall_forall.
  intros b Hb. specialize (Hall b Hb). specialize (Hl b Hb).
  unfold key_le in Hall. simpl. lia.
Qed.

Lemma sort_by_sorted {A : Type} (key : A -> Z) (l : list A) :
  StronglySorted (fun x y => key x <= key y) (sort_by key l).
Proof.
  unfold sort_by. apply keyed_sorted_map_snd; [|apply sort_keyed_sorted].
  eapply Permutation_Forall; [apply sort_keyed_perm|].
  apply Forall_map. apply Forall_forall. reflexivity.
Qed.

Lemma sorted_by_key_total {A : Type} (key : A -> result Z) (k : A -> Z) (l : list A) :
  Forall (fun x => key x = Ok (k x)) l ->
  sorted_by_key key l = Ok (sort_by k l).
Proof.
  intros Hk. unfold sorted_by_key, sort_by.
  rewrite (for_each_map key k l Hk). simpl.
  do 3 f_equal. clear Hk.
  induction l as [|x l IH]; simpl; [reflexivity|]. now rewrite IH.
Qed.

(** ** The maximum *)

Lemma max_of_ge (x : Z) (l : list Z) :
  x <= max_of x l /\ Forall (fun y => y <= max_of x l) l.
Proof.
  revert x. induction l as [|y l IH]; intros x; simpl.
  - split; [lia|constructor].
  - destruct (IH y) as [Hy Hl]. split; [lia|].
    constructor; [lia|].
    eapply Forall_impl; [exact Hl|]. simpl. intros; lia.
Qed.

Lemma max_of_attained (x : Z) (l : list Z) : In (max_of x l) (x :: l).
Proof.
  revert x. induction l as [|y l IH]; intros x; simpl.
  - now left.
  - destruct (Z.max_spec x (max_of y l)) as [[_ ->]|[_ ->]].
    + right. apply IH.
    + now left.
Qed.

(** ** reverse *)

Lemma OFFSET_64_neq_DURATION_64 : OFFSET_64 <> DURATION_64.
Proof. discriminate. Qed.

Lemma getitem_int_timed (point : Point) :
  timed point -> getitem_int point OFFSET_64 = Ok (offset_of point).
Proof.
  intros [[z Hz] _]. unfold getitem_int, getitem, offset_of. now rewrite Hz.
Qed.

Lemma duration_or_zero_timed (point : Point) :
  timed point -> duration_or_zero point = Ok (duration_of point).
Proof.
  intros [_ [Hd|[d Hd]]]; unfold duration_or_zero, get_default, duration_of;
    now rewrite Hd.
Qed.

Lemma point_end_timed (point : Point) :
  timed point -> point_end point = Ok (offset_of point + duration_of point).
Proof.
  intros Ht. unfold point_end.
  rewrite (getitem_int_timed point Ht). simpl.
  now rewrite (duration_or_zero_timed point Ht).
Qed.

Lemma reflect_point_timed (last_offset : Z) (point : Point) :
  timed point -> reflect_point last_offset point = Ok (reflected last_offset point).
Proof.
  intros Ht. unfold reflect_point.
  rewrite (getitem_int_timed point Ht). simpl.
  now rewrite (duration_or_zero_timed point Ht).
Qed.

Lemma shift_point_zero (point : Point) :
  timed point -> shift_point 0 point = Ok point.
Proof.
  intros Ht. unfold shift_point.
  rewrite (getitem_int_timed point Ht). simpl. f_equal.
  destruct Ht as [[z Hz] _]. unfold offset_of. rewrite Hz.
  rewrite Z.add_0_r. now apply insert_id.
Qed.

Lemma next_offset_timed (seq : OSequence) :
  Forall timed seq -> next_offset seq = Ok (max_end seq).
Proof.
  intros Hall. unfold next_offset, max_end.
  rewrite (for_each_map point_end (fun point => offset_of point + duration_of point) seq).
  - reflexivity.
  - eapply Forall_impl; [exact Hall|]. apply point_end_timed.
Qed.

Lemma concatenate_anchor (seq : OSequence) :
  Forall timed seq -> concatenate [anchor] seq = Ok (anchor :: seq).
Proof.
  intros Hall. unfold concatenate.
  change (next_offset [anchor]) with (Ok 0 : result Z). simpl.
  rewrite (for_each_id_on (shift_point 0) seq).
  - reflexivity.
  - eapply Forall_impl; [exact Hall|]. apply shift_point_zero.
Qed.

Lemma timed_anchor : timed anchor.
Proof. split; [exists 0; reflexivity|left; reflexivity]. Qed.

Lemma offset_of_reflected (last_offset : Z) (point : Point) :
  offset_of (reflected last_offset point)
  = last_offset - offset_of point - duration_of point.
Proof. unfold reflected. unfold offset_of at 1. now rewrite lookup_insert_eq. Qed.

Lemma duration_of_reflected (last_offset : Z) (point : Point) :
  duration_of (reflected last_offset point) = duration_of point.
Proof.
  unfold reflected. unfold duration_of at 1.
  rewrite lookup_insert_ne by apply OFFSET_64_neq_DURATION_64. reflexivity.
Qed.

Lemma timed_reflected (last_offset : Z) (point : Point) :
  timed point -> timed (reflected last_offset point).
Proof.
  intros [_ Hd]. unfold reflected. split.
  - eexists. apply lookup_insert_eq.
  - rewrite lookup_insert_ne by apply OFFSET_64_neq_DURATION_64. exact Hd.
Qed.

Lemma timed_anchor_prefixed (seq : OSequence) :
  Forall timed seq -> Forall timed (anchor_prefixed seq).
Proof.
  intros Hall. destruct seq as [|first rest]; simpl; [constructor|].
  destruct (offset_of first =? 0); [exact Hall|].
  constructor; [apply timed_anchor|exact Hall].
Qed.

(** On a sequence of well-formed points [reverse] raises nothing, and its
    result is the sorted list of the reflected points other than the
    placeholder. *)
Lemma reverse_timed (seq : OSequence) :
  Forall timed seq ->
  reverse seq
  = Ok (sort_by offset_of
          (filter (fun new_point : Point => new_point <> anchor)
             (map (reflected (max_end seq)) (anchor_prefixed seq)))).
Proof.
  intros Hall.
  assert (Hloop : forall old : OSequence,
    Forall timed old ->
    (for_each (reflect_point (max_end seq)) old
     ≫= λ new_points : list Point,
          sorted_by_key (λ x : Point, getitem_int x OFFSET_64)
            (filter (λ new_point : Point, new_point ≠ anchor) new_points))
    = Ok (sort_by offset_of
            (filter (fun new_point : Point => new_point <> anchor)
               (map (reflected (max_end seq)) old)))).
  { intros old Hold.
    rewrite (for_each_map (reflect_point (max_end seq)) (reflected (max_end seq))).
    2:{ eapply Forall_impl; [exact Hold|]. intros point. apply reflect_point_timed. }
    rewrite bind_Ok. apply sorted_by_key_total.
    apply Forall_forall. intros point Hin.
    apply getitem_int_timed.
    apply list_elem_of_filter in Hin. destruct Hin as [_ Hin].
    apply (proj1 (list_elem_of_In _ _)) in Hin.
    apply in_map_iff in Hin. destruct Hin as (q & <- & Hq).
    apply timed_reflected.
    rewrite Forall_forall in Hold. apply Hold. now apply list_elem_of_In. }
  unfold reverse.
  rewrite (next_offset_timed seq Hall), bind_Ok.
  destruct seq as [|first rest].
  - rewrite bind_Ok. now apply Hloop.
  - inversion Hall as [|? ? [[z Hz] _] _]; subst.
    unfold getitem. rewrite Hz, bind_Ok.
    unfold anchor_prefixed, offset_of. rewrite Hz.
    destruct (Z.eqb_spec z 0) as [->|Hnz].
    + simpl value_nonzero. cbv iota. rewrite bind_Ok. now apply Hloop.
    + replace (value_nonzero (VInt z)) with true by (destruct z; simpl; congruence).
      rewrite (concatenate_anchor _ Hall), bind_Ok.
      apply Hloop. constructor; [apply timed_anchor|exact Hall].
Qed.

(** C6. On a sequence of well-formed points [reverse] returns the points of
    the (anchor-prefixed) sequence, each with the new offset
    [last_offset - offset - duration], where [last_offset] is [next_offset()]
    of the original sequence and an absent duration counts as 0; the
    placeholder [{offset: 0}] is left out and the result is sorted by offset.
    The sequence [{offset: 0, duration: 4}, {offset: 4, duration: 2}] has
    [next_offset() = 6] and is reversed to
    [{offset: 0, duration: 2}, {offset: 2, duration: 4}]. *)
Theorem reverse_reflects_offsets :
  (forall seq : OSequence,
     Forall timed seq ->
     exists reversed : OSequence,
       next_offset seq = Ok (max_end seq) /\
       reverse seq = Ok reversed /\
       Permutation
         (filter (fun new_point : Point => new_point <> anchor)
            (map (reflected (max_end seq)) (anchor_prefixed seq)))
         reversed /\
       StronglySorted (fun a b => offset_of a <= offset_of b) reversed) /\
  next_offset [{[OFFSET_64 := VInt 0; DURATION_64 := VInt 4]};
               {[OFFSET_64 := VInt 4; DURATION_64 := VInt 2]}] = Ok 6 /\
  reverse [{[OFFSET_64 := VInt 0; DURATION_64 := VInt 4]};
           {[OFFSET_64 := VInt 4; DURATION_64 := VInt 2]}]
  = Ok [{[OFFSET_64 := VInt 0; DURATION_64 := VInt 2]};
        {[OFFSET_64 := VInt 2; DURATION_64 := VInt 4]}].
Proof.
  split; [|split; reflexivity].
  intros seq Hall. eexists. split; [now apply next_offset_timed|].
  split; [now apply reverse_timed|].
  split; [apply sort_by_perm|apply sort_by_sorted].
Qed.

Lemma filter_all {A : Type} (P : A -> Prop) `{forall x, Decision (P x)} (l : list A) :
  Forall P l -> filter P l = l.
Proof.
  induction 1 as [|x l Hx _ IH]; [reflexivity|].
  rewrite filter_cons_True by exact Hx. now rewrite IH.
Qed.

Lemma reflected_involutive (last_offset : Z) (point : Point) :
  timed point -> reflected last_offset (reflected last_offset point) = point.
Proof.
  intros [[z Hz] _]. unfold reflected at 1.
  rewrite offset_of_reflected, duration_of_reflected.
  unfold reflected. rewrite insert_insert_eq.
  replace (last_offset - (last_offset - offset_of point - duration_of point)
           - duration_of point) with (offset_of point) by lia.
  apply insert_id. unfold offset_of. now rewrite Hz.
Qed.

(** Only the bare point at [last_offset] is reflected onto the placeholder. *)
Lemma reflected_anchor_inv (last_offset : Z) (point : Point) :
  timed point ->
  reflected last_offset point = anchor ->
  point = {[OFFSET_64 := VInt last_offset]}.
Proof.
  intros [[z Hz] _] Heq.
  assert (Hd : point !! DURATION_64 = None).
  { apply (f_equal (fun m : Point => m !! DURATION_64)) in Heq.
    unfold reflected in Heq.
    rewrite lookup_insert_ne in Heq by apply OFFSET_64_neq_DURATION_64.
    exact Heq. }
  assert (Hoff : z = last_offset).
  { apply (f_equal (fun m : Point => m !! OFFSET_64)) in Heq.
    unfold reflected, anchor in Heq.
    rewrite lookup_insert_eq, lookup_singleton_eq in Heq.
    unfold offset_of, duration_of in Heq. rewrite Hz, Hd in Heq.
    injection Heq as Heq. lia. }
  subst z. apply map_eq. intros key.
  destruct (decide (key = OFFSET_64)) as [->|Hne].
  - now rewrite Hz, lookup_singleton_eq.
  - rewrite lookup_singleton_ne by congruence.
    apply (f_equal (fun m : Point => m !! key)) in Heq.
    unfold reflected, anchor in Heq.
    rewrite lookup_insert_ne in Heq by congruence.
    rewrite lookup_singleton_ne in Heq by congruence. exact Heq.
Qed.

Lemma max_end_ge (seq : OSequence) :
  Forall (fun point => offset_of point + duration_of point <= max_end seq) seq.
Proof.
  unfold max_end. destruct seq as [|first rest]; [constructor|]. simpl.
  destruct (max_of_ge (offset_of first + duration_of first)
              (map (fun point => offset_of point + duration_of point) rest))
    as [Hfirst Hrest].
  constructor; [exact Hfirst|].
  rewrite Forall_forall in Hrest. apply Forall_forall. intros point Hin.
  apply Hrest. apply list_elem_of_In.
  apply (in_map (fun point => offset_of point + duration_of point)).
  now apply list_elem_of_In.
Qed.

Lemma max_end_attained (seq : OSequence) :
  seq <> [] ->
  exists point, In point seq /\ offset_of point + duration_of point = max_end seq.
Proof.
  unfold max_end. destruct seq as [|first rest]; [congruence|]. intros _.
  pose proof (max_of_attained (offset_of first + duration_of first)
                (map (fun point => offset_of point + duration_of point) rest)) as Hin.
  change (In (max_of (offset_of first + duration_of first)
                (map (fun point => offset_of point + duration_of point) rest))
             (map (fun point => offset_of point + duration_of point) (first :: rest)))
    in Hin.
  apply in_map_iff in Hin. destruct Hin as (point & Heq & Hin).
  exists point. split; [exact Hin|exact Heq].
Qed.

Lemma max_end_unique (seq : OSequence) (m : Z) :
  Forall (fun point => offset_of point + duration_of point <= m) seq ->
  (exists point, In point seq /\ offset_of point + duration_of point = m) ->
  max_end seq = m.
Proof.
  intros Hle (point & Hin & Heq).
  assert (Hne : seq <> []) by (intros ->; destruct Hin).
  destruct (max_end_attained seq Hne) as (top & Htop & Hmax).
  pose proof (max_end_ge seq) as Hge.
  rewrite Forall_forall in Hle, Hge.
  apply list_elem_of_In in Hin, Htop.
  specialize (Hle top Htop). specialize (Hge point Hin).
  simpl in *. lia.
Qed.

(** With the first offset 0 and no bare point at [next_offset()], one pass of
    [reverse] is the sorted list of all the reflected points. *)
Lemma reverse_no_drop (seq : OSequence) :
  Forall timed seq ->
  anchor_prefixed seq = seq ->
  Forall (fun point : Point => point <> {[OFFSET_64 := VInt (max_end seq)]}) seq ->
  reverse seq = Ok (sort_by offset_of (map (reflected (max_end seq)) seq)).
Proof.
  intros Ht Hap Hbare.
  rewrite (reverse_timed seq Ht), Hap. do 2 f_equal.
  apply filter_all. apply Forall_map.
  rewrite Forall_forall in Ht, Hbare. apply Forall_forall.
  intros point Hin Heq.
  apply (Hbare point Hin). apply reflected_anchor_inv; [now apply Ht|exact Heq].
Qed.

(** Reversing twice when nothing is dropped: the first offset is 0, the
    offsets are non-negative and no point consists of the offset alone with
    value 0 or [next_offset()]. *)
Lemma reverse_twice_without_marker (first : Point) (rest : OSequence) :
  let seq := first :: rest in
  first !! OFFSET_64 = Some (VInt 0) ->
  Forall timed seq ->
  Forall (fun point => 0 <= offset_of point) seq ->
  Forall (fun point : Point =>
            point <> anchor /\ point <> {[OFFSET_64 := VInt (max_end seq)]}) seq ->
  exists once twice : OSequence,
    reverse seq = Ok once /\ reverse once = Ok twice /\ Permutation seq twice.
Proof.
  intros seq Hfirst Ht Hpos Hbare.
  set (L := max_end seq) in *.
  set (once := sort_by offset_of (map (reflected L) seq)).
  assert (Hperm1 : Permutation (map (reflected L) seq) once) by apply sort_by_perm.
  assert (Hoff0 : offset_of first = 0) by (unfold offset_of; now rewrite Hfirst).
  (* the first pass *)
  assert (Hrev1 : reverse seq = Ok once).
  { apply reverse_no_drop; [exact Ht| |].
    - unfold seq, anchor_prefixed. now rewrite Hoff0.
    - eapply Forall_impl; [exact Hbare|]. now intros point [_ H]. }
  (* every point of [once] is the reflection of a point of [seq] *)
  assert (Honce : forall q, In q once ->
            exists p, In p seq /\ q = reflected L p).
  { intros q Hq. apply (Permutation_in _ (Permutation_sym Hperm1)) in Hq.
    apply in_map_iff in Hq. destruct Hq as (p & <- & Hp). eauto. }
  assert (Hin_once : forall p, In p seq -> In (reflected L p) once).
  { intros p Hp. apply (Permutation_in _ Hperm1). now apply in_map. }
  assert (Ht1 : Forall timed once).
  { apply Forall_forall. intros q Hq. apply list_elem_of_In in Hq.
    destruct (Honce q Hq) as (p & Hp & ->). apply timed_reflected.
    rewrite Forall_forall in Ht. apply Ht. now apply list_elem_of_In. }
  (* [next_offset()] is the same for [once] *)
  assert (HL1 : max_end once = L).
  { apply max_end_unique.
    - apply Forall_forall. intros q Hq. apply list_elem_of_In in Hq.
      destruct (Honce q Hq) as (p & Hp & ->).
      rewrite offset_of_reflected, duration_of_reflected.
      rewrite Forall_forall in Hpos.
      apply list_elem_of_In in Hp. specialize (Hpos p Hp). simpl in Hpos. lia.
    - exists (reflected L first). split; [apply Hin_once; now left|].
      rewrite offset_of_reflected, duration_of_reflected. lia. }
  (* [once] starts at offset 0 *)
  assert (Hap1 : anchor_prefixed once = once).
  { pose proof (sort_by_sorted offset_of (map (reflected L) seq)) as Hsorted.
    fold once in Hsorted.
    destruct once as [|h t] eqn:Eonce.
    - reflexivity.
    - unfold anchor_prefixed.
      assert (Hh : offset_of h = 0); [|now rewrite Hh].
      inversion Hsorted as [|? ? _ Hmin]; subst.
      destruct (max_end_attained seq) as (top & Htop & Hmax); [discriminate|].
      fold L in Hmax.
      assert (Hle : offset_of h <= 0).
      { pose proof (Hin_once top Htop) as Hin.
        destruct Hin as [Hh|Hin].
        - rewrite Hh, offset_of_reflected. lia.
        - rewrite Forall_forall in Hmin. apply list_elem_of_In in Hin.
          specialize (Hmin _ Hin). simpl in Hmin.
          rewrite offset_of_reflected in Hmin. lia. }
      destruct (Honce h) as (p & Hp & Hh); [now left|].
      rewrite Hh, offset_of_reflected in *.
      pose proof (max_end_ge seq) as Hge. fold L in Hge.
      rewrite Forall_forall in Hge. apply list_elem_of_In in Hp.
      specialize (Hge p Hp). simpl in Hge. lia. }
  (* the second pass *)
  assert (Hrev2 : reverse once = Ok (sort_by offset_of (map (reflected L) once))).
  { rewrite <- HL1. apply reverse_no_drop; [exact Ht1|exact Hap1|].
    rewrite HL1. apply Forall_forall. intros q Hq Heq.
    apply list_elem_of_In in Hq. destruct (Honce q Hq) as (p & Hp & Hqp).
    assert (Hback : reflected L q = p).
    { rewrite Hqp. apply reflected_involutive.
      rewrite Forall_forall in Ht. apply Ht. now apply list_elem_of_In. }
    (* the reflection of [q] is the placeholder *)
    rewrite Forall_forall in Hbare. apply list_elem_of_In in Hp.
    destruct (Hbare p Hp) as [Hanchor _]. apply Hanchor. rewrite <- Hback, Heq.
    unfold reflected, offset_of, duration_of.
    rewrite lookup_singleton_eq.
    rewrite lookup_singleton_ne by apply OFFSET_64_neq_DURATION_64.
    rewrite insert_singleton_eq.
    unfold anchor. do 2 f_equal. lia. }
  exists once, (sort_by offset_of (map (reflected L) once)).
  split; [exact Hrev1|]. split; [exact Hrev2|].
  rewrite <- sort_by_perm. rewrite <- Hperm1. rewrite map_map.
  rewrite (map_ext_in _ id); [now rewrite map_id|].
  intros p Hp. apply reflected_involutive.
  rewrite Forall_forall in Ht. apply Ht. now apply list_elem_of_In.
Qed.

(** C2 (as stated) fails: the marker at the end of the sequence is reflected
    onto the placeholder and dropped, and the second pass does not bring it
    back. *)
Lemma reverse_twice_loses_marker :
  let note : Point := {[OFFSET_64 := VInt 0; DURATION_64 := VInt 4]} in
  let marker : Point := {[OFFSET_64 := VInt 4]} in
  note !! OFFSET_64 = Some (VInt 0) /\
  reverse [note; marker] = Ok [note] /\
  reverse [note] = Ok [note] /\
  ~ Permutation [note; marker] [note].
Proof.
  split; [reflexivity|]. split; [reflexivity|]. split; [reflexivity|].
  intros Hperm. apply Permutation_length in Hperm. discriminate.
Qed.

Lemma reverse_reflects_offsets_witness :
  let seq : OSequence := [{[OFFSET_64 := VInt 3; DURATION_64 := VInt 2]}] in
  exists reversed : OSequence,
    next_offset seq = Ok (max_end seq) /\
    reverse seq = Ok reversed /\
    Permutation
      (filter (fun new_point : Point => new_point <> anchor)
         (map (reflected (max_end seq)) (anchor_prefixed seq)))
      reversed /\
    StronglySorted (fun a b => offset_of a <= offset_of b) reversed.
Proof.
  apply (proj1 reverse_reflects_offsets).
  repeat constructor; solve [eexists; reflexivity | right; eexists; reflexivity].
Defined.

(** The other two conditions of [reverse_twice_permutation] cannot be left
    out either: a bare point at offset 0 is dropped by the second pass, and a
    negative offset moves [next_offset()] of the reversed sequence. *)
Lemma reverse_twice_loses_bare_start :
  let bare : Point := {[OFFSET_64 := VInt 0]} in
  let note : Point := {[OFFSET_64 := VInt 0; DURATION_64 := VInt 4]} in
  reverse [bare; note] = Ok [note; {[OFFSET_64 := VInt 4]}] /\
  reverse [note; {[OFFSET_64 := VInt 4]}] = Ok [note] /\
  ~ Permutation [bare; note] [note].
Proof.
  split; [reflexivity|]. split; [reflexivity|].
  intros Hperm. apply Permutation_length in Hperm. discriminate.
Qed.

Lemma reverse_twice_negative_offset :
  let note : Point := {[OFFSET_64 := VInt 0; DURATION_64 := VInt 1]} in
  let early : Point := {[OFFSET_64 := VInt (-3); DURATION_64 := VInt 1]} in
  let late : Point := {[OFFSET_64 := VInt 3; DURATION_64 := VInt 1]} in
  reverse [note; early] = Ok [note; late] /\
  reverse [note; late] = Ok [note; late] /\
  ~ Permutation [note; early] [note; late].
Proof.
  split; [reflexivity|]. split; [reflexivity|].
  intros Hperm.
  apply Permutation_in with (x := {[OFFSET_64 := VInt (-3); DURATION_64 := VInt 1]})
    in Hperm; [|right; now left].
  destruct Hperm as [Heq|[Heq|[]]];
    apply (f_equal (fun m : Point => m !! OFFSET_64)) in Heq; discriminate.
Qed.

(** * Further properties of the transforms *)

(** ** add *)

(** [add] never raises.  In the updated point a key of [properties] holds the
    value [properties] gives it, and every other key holds what it held. *)
Theorem add_point_lookup (properties point : Point) (key : string) :
  exists updated,
    add_point properties point = Ok updated /\
    updated !! key = match properties !! key with
                     | Some v => Some v
                     | None => point !! key
                     end.
Proof.
  exists (properties ∪ point). split; [reflexivity|].
  rewrite lookup_union. destruct (properties !! key), (point !! key); reflexivity.
Qed.

(** [add] never raises.  After [add(first)] and then [add(second)] a key
    holds the value [second] gives it, else the value [first] gives it, else
    what it held in the point: the two in a row are one [add] of the merged
    properties, the later ones winning, and a second [add(first)] changes
    nothing. *)
Theorem add_point_compose (first second point : Point) :
  exists once twice,
    add_point first point = Ok once /\
    add_point second once = Ok twice /\
    (forall key,
        twice !! key = match second !! key with
                       | Some v => Some v
                       | None => match first !! key with
                                 | Some v => Some v
                                 | None => point !! key
                                 end
                       end) /\
    add_point (second ∪ first) point = Ok twice /\
    add_point first once = Ok once.
Proof.
  exists (first ∪ point), (second ∪ (first ∪ point)). unfold add_point.
  split; [reflexivity|]. split; [reflexivity|]. split; [|split].
  - intros key. rewrite !lookup_union.
    destruct (second !! key), (first !! key), (point !! key); reflexivity.
  - f_equal. symmetry. apply (assoc_L (∪)).
  - f_equal. rewrite (assoc_L (∪)). now rewrite (idemp_L (∪)).
Qed.

(** ** transpose and invert *)

(** [transpose(a)] adds [a] to an integer [midi_pitch], raises [TypeError]
    on a string one and returns the point unchanged when it has none; and
    transposing by [a] and then by [b] is transposing by [a + b]. *)
Theorem transpose_point_compose (a b : Z) (point : Point) :
  transpose_point a point
  = match point !! MIDI_PITCH with
    | Some (VInt old) => Ok (<[MIDI_PITCH := VInt (old + a)]> point)
    | Some (VStr _) => Raise TypeError
    | None => Ok point
    end /\
  (transpose_point a point ≫= transpose_point b) = transpose_point (a + b) point.
Proof.
  unfold transpose_point.
  destruct (point !! MIDI_PITCH) as [[old|s]|] eqn:Hm; simpl.
  - split; [reflexivity|].
    rewrite lookup_insert_eq. simpl. rewrite insert_insert_eq.
    do 3 f_equal. lia.
  - split; reflexivity.
  - split; [reflexivity|]. now rewrite Hm.
Qed.

(** Whenever [transpose(s)] succeeds, [transpose(-s)] gives the point back. *)
Theorem transpose_point_round_trip (semitones : Z) (point transposed : Point) :
  transpose_point semitones point = Ok transposed ->
  transpose_point (- semitones) transposed = Ok point.
Proof.
  unfold transpose_point.
  destruct (point !! MIDI_PITCH) as [[old|s]|] eqn:Hm; simpl; intros [= <-].
  - rewrite lookup_insert_eq. simpl. rewrite insert_insert_eq. f_equal.
    replace (old + semitones + - semitones) with old by lia.
    now apply insert_id.
  - now rewrite Hm.
Qed.

Lemma transpose_point_round_trip_witness :
  transpose_point (-7) {[MIDI_PITCH := VInt 67; "pitch" := VInt 6]}
  = Ok {[MIDI_PITCH := VInt 60; "pitch" := VInt 6]}.
Proof.
  apply (transpose_point_round_trip 7
           {[MIDI_PITCH := VInt 60; "pitch" := VInt 6]}
           {[MIDI_PITCH := VInt 67; "pitch" := VInt 6]}).
  reflexivity.
Defined.

(** Inverting a transposed point is transposing the inverted point the other
    way.  Both sides raise [TypeError] on a string [midi_pitch]. *)
Theorem invert_transpose_commute (pivot semitones : Z) (point : Point) :
  (transpose_point semitones point ≫= invert_point pivot)
  = (invert_point pivot point ≫= transpose_point (- semitones)).
Proof.
  unfold transpose_point, invert_point.
  destruct (point !! MIDI_PITCH) as [[old|s]|] eqn:Hm; simpl.
  - rewrite !lookup_insert_eq. simpl. rewrite !insert_insert_eq.
    do 3 f_equal. lia.
  - reflexivity.
  - now rewrite Hm.
Qed.

(** Inverting about [p] and then about [q] is transposing by [2 * (q - p)]. *)
Theorem invert_point_two_pivots (p q : Z) (point : Point) :
  (invert_point p point ≫= invert_point q) = transpose_point (2 * (q - p)) point.
Proof.
  unfold transpose_point, invert_point.
  destruct (point !! MIDI_PITCH) as [[old|s]|] eqn:Hm; simpl.
  - rewrite lookup_insert_eq. simpl. rewrite insert_insert_eq.
    do 3 f_equal. lia.
  - reflexivity.
  - now rewrite Hm.
Qed.

(** [transpose] and [invert] touch nothing but [midi_pitch], and they do not
    create it: where they succeed every other key holds what it held, and
    [midi_pitch] is present after exactly when it was present before. *)
Theorem transpose_invert_frame (n : Z) (point changed : Point) :
  transpose_point n point = Ok changed \/ invert_point n point = Ok changed ->
  (forall key, key <> MIDI_PITCH -> changed !! key = point !! key) /\
  (is_Some (changed !! MIDI_PITCH) <-> is_Some (point !! MIDI_PITCH)).
Proof.
  intros Hrun.
  assert (Hshape : changed = point /\ point !! MIDI_PITCH = None \/
                   exists old new, point !! MIDI_PITCH = Some (VInt old) /\
                                   changed = <[MIDI_PITCH := VInt new]> point).
  { unfold transpose_point, invert_point in Hrun.
    destruct (point !! MIDI_PITCH) as [[old|s]|] eqn:Hm; simpl in Hrun.
    - right. destruct Hrun as [[= <-]|[= <-]]; eauto.
    - destruct Hrun; discriminate.
    - left. destruct Hrun as [[= <-]|[= <-]]; auto. }
  destruct Hshape as [[-> Hm]|(old & new & Hm & ->)].
  - split; [reflexivity|tauto].
  - split.
    + intros key Hne. now rewrite lookup_insert_ne by congruence.
    + rewrite lookup_insert_eq, Hm. split; eauto.
Qed.

Lemma transpose_invert_frame_witness :
  (forall key, key <> MIDI_PITCH ->
               ({[MIDI_PITCH := VInt 62; OFFSET_64 := VInt 8]} : Point) !! key
               = ({[MIDI_PITCH := VInt 60; OFFSET_64 := VInt 8]} : Point) !! key) /\
  (is_Some (({[MIDI_PITCH := VInt 62; OFFSET_64 := VInt 8]} : Point) !! MIDI_PITCH)
   <-> is_Some (({[MIDI_PITCH := VInt 60; OFFSET_64 := VInt 8]} : Point) !! MIDI_PITCH)).
Proof.
  apply (transpose_invert_frame 2
           {[MIDI_PITCH := VInt 60; OFFSET_64 := VInt 8]}
           {[MIDI_PITCH := VInt 62; OFFSET_64 := VInt 8]}).
  left. reflexivity.
Defined.

(** ** stretch *)

Lemma stretch_point_int_eq (int_of_str : string -> result Z) (m : Z) (point : Point) :
  timed point ->
  stretch_point int_of_str (NInt m) point = Ok (stretched_by m point).
Proof.
  intros [[z Hz] Hd].
  unfold stretch_point, stretched_by, getitem, offset_of, duration_of.
  rewrite Hz, bind_Ok. simpl scaled. rewrite bind_Ok. cbv zeta.
  rewrite lookup_insert_ne by apply OFFSET_64_neq_DURATION_64.
  destruct Hd as [Hd|[d Hd]]; rewrite Hd; reflexivity.
Qed.

Lemma stretched_by_lookup (m : Z) (point : Point) (key : string) :
  stretched_by m point !! key
  = if decide (key = OFFSET_64) then Some (VInt (offset_of point * m))
    else if decide (key = DURATION_64)
         then match point !! DURATION_64 with
              | Some _ => Some (VInt (duration_of point * m))
              | None => None
              end
         else point !! key.
Proof.
  unfold stretched_by. cbv zeta.
  destruct (decide (key = OFFSET_64)) as [->|Ho].
  - destruct (point !! DURATION_64).
    + rewrite lookup_insert_ne
        by (intros Heq; now apply OFFSET_64_neq_DURATION_64).
      apply lookup_insert_eq.
    + apply lookup_insert_eq.
  - destruct (decide (key = DURATION_64)) as [->|Hd].
    + destruct (point !! DURATION_64) eqn:E.
      * apply lookup_insert_eq.
      * rewrite lookup_insert_ne by congruence. exact E.
    + destruct (point !! DURATION_64);
        now rewrite !lookup_insert_ne by congruence.
Qed.

Lemma timed_stretched_by (m : Z) (point : Point) :
  timed point -> timed (stretched_by m point).
Proof.
  intros [_ Hd]. split.
  - eexists. rewrite stretched_by_lookup. now rewrite decide_True.
  - rewrite stretched_by_lookup.
    rewrite decide_False by (intros Heq; now apply OFFSET_64_neq_DURATION_64).
    rewrite decide_True by reflexivity.
    destruct (point !! DURATION_64); eauto.
Qed.

(** With an integer multiplier [m], [stretch] multiplies the offset and the
    duration of a well-formed point by [m] exactly; it gives no duration to a
    point that has none, and leaves every other key as it was. *)
Theorem stretch_point_int (int_of_str : string -> result Z) (m : Z) (point : Point) :
  timed point ->
  exists stretched,
    stretch_point int_of_str (NInt m) point = Ok stretched /\
    stretched !! OFFSET_64 = Some (VInt (offset_of point * m)) /\
    stretched !! DURATION_64
    = (match point !! DURATION_64 with
       | Some _ => Some (VInt (duration_of point * m))
       | None => None
       end) /\
    forall key, key <> OFFSET_64 -> key <> DURATION_64 ->
                stretched !! key = point !! key.
Proof.
  intros Ht. exists (stretched_by m point).
  split; [now apply stretch_point_int_eq|].
  split; [rewrite stretched_by_lookup; now rewrite decide_True|].
  split.
  - rewrite stretched_by_lookup.
    rewrite decide_False by (intros Heq; now apply OFFSET_64_neq_DURATION_64).
    now rewrite decide_True.
  - intros key Ho Hd. rewrite stretched_by_lookup.
    now rewrite !decide_False by assumption.
Qed.

Lemma stretch_point_int_witness :
  let point : Point :=
    {[OFFSET_64 := VInt 16; DURATION_64 := VInt 8; MIDI_PITCH := VInt 60]} in
  exists stretched,
    stretch_point (fun _ => Raise (ValueError "")) (NInt 3) point = Ok stretched /\
    stretched !! OFFSET_64 = Some (VInt (offset_of point * 3)) /\
    stretched !! DURATION_64
    = (match point !! DURATION_64 with
       | Some _ => Some (VInt (duration_of point * 3))
       | None => None
       end) /\
    forall key, key <> OFFSET_64 -> key <> DURATION_64 ->
                stretched !! key = point !! key.
Proof.
  apply (stretch_point_int (fun _ => Raise (ValueError "")) 3
           {[OFFSET_64 := VInt 16; DURATION_64 := VInt 8; MIDI_PITCH := VInt 60]}).
  split; [exists 16; reflexivity|right; exists 8; reflexivity].
Defined.

(** Stretching a well-formed point by the integers [m] and then [n] is
    stretching it by [m * n]. *)
Theorem stretch_point_int_compose (int_of_str : string -> result Z) (m n : Z)
    (point : Point) :
  timed point ->
  (stretch_point int_of_str (NInt m) point ≫= stretch_point int_of_str (NInt n))
  = stretch_point int_of_str (NInt (m * n)) point.
Proof.
  intros Ht.
  rewrite (stretch_point_int_eq int_of_str m point Ht), bind_Ok.
  rewrite (stretch_point_int_eq int_of_str n _ (timed_stretched_by m point Ht)).
  rewrite (stretch_point_int_eq int_of_str (m * n) point Ht).
  f_equal. apply map_eq. intros key.
  rewrite !stretched_by_lookup.
  assert (Hoff : offset_of (stretched_by m point) = offset_of point * m).
  { unfold offset_of at 1. rewrite stretched_by_lookup. now rewrite decide_True. }
  assert (Hdur : duration_of (stretched_by m point) = duration_of point * m).
  { unfold duration_of at 1. rewrite stretched_by_lookup.
    rewrite decide_False by (intros Heq; now apply OFFSET_64_neq_DURATION_64).
    rewrite decide_True by reflexivity.
    unfold duration_of. destruct (point !! DURATION_64) as [[d|s]|]; simpl; lia. }
  rewrite Hoff, Hdur.
  rewrite (decide_False (P := DURATION_64 = OFFSET_64))
    by (intros Heq; now apply OFFSET_64_neq_DURATION_64).
  rewrite (decide_True (P := DURATION_64 = DURATION_64)) by reflexivity.
  destruct (decide (key = OFFSET_64)); [do 2 f_equal; lia|].
  destruct (decide (key = DURATION_64)); [|reflexivity].
  destruct (point !! DURATION_64); [do 2 f_equal; lia|reflexivity].
Qed.

Lemma stretch_point_int_compose_witness :
  let point : Point := {[OFFSET_64 := VInt 16; DURATION_64 := VInt 8]} in
  (stretch_point (fun _ => Raise (ValueError "")) (NInt 2) point
   ≫= stretch_point (fun _ => Raise (ValueError "")) (NInt 3))
  = stretch_point (fun _ => Raise (ValueError "")) (NInt (2 * 3)) point.
Proof.
  apply (stretch_point_int_compose (fun _ => Raise (ValueError "")) 2 3
           {[OFFSET_64 := VInt 16; DURATION_64 := VInt 8]}).
  split; [exists 16; reflexivity|right; exists 8; reflexivity].
Defined.

(** Whatever the multiplier, integer or float, a successful [stretch] leaves
    an integer offset and, where the point had a duration, an integer
    duration; it neither adds nor removes the duration and it leaves every
    other key as it was. *)
Theorem stretch_point_frame (int_of_str : string -> result Z) (multiplier : number)
    (point stretched : Point) :
  stretch_point int_of_str multiplier point = Ok stretched ->
  timed stretched /\
  (is_Some (stretched !! DURATION_64) <-> is_Some (point !! DURATION_64)) /\
  forall key, key <> OFFSET_64 -> key <> DURATION_64 ->
              stretched !! key = point !! key.
Proof.
  unfold stretch_point, getitem. intros Hrun.
  destruct (point !! OFFSET_64) as [offset|]; [|discriminate].
  rewrite bind_Ok in Hrun.
  destruct (scaled int_of_str offset multiplier) as [new_offset|]; [|discriminate].
  rewrite bind_Ok in Hrun. cbv zeta in Hrun.
  rewrite lookup_insert_ne in Hrun by apply OFFSET_64_neq_DURATION_64.
  destruct (point !! DURATION_64) as [duration|] eqn:Hd.
  - destruct (scaled int_of_str duration multiplier) as [new_duration|];
      [|discriminate].
    injection Hrun as <-. split; [split|split].
    + eexists.
      rewrite lookup_insert_ne
        by (intros Heq; now apply OFFSET_64_neq_DURATION_64).
      apply lookup_insert_eq.
    + right. eexists. apply lookup_insert_eq.
    + rewrite lookup_insert_eq. split; eauto.
    + intros key Ho Hk. now rewrite !lookup_insert_ne by congruence.
  - injection Hrun as <-. split; [split|split].
    + eexists. apply lookup_insert_eq.
    + left. now rewrite lookup_insert_ne by apply OFFSET_64_neq_DURATION_64.
    + rewrite lookup_insert_ne by apply OFFSET_64_neq_DURATION_64.
      rewrite Hd. reflexivity.
    + intros key Ho Hk. now rewrite lookup_insert_ne by congruence.
Qed.

Lemma stretch_point_frame_witness :
  let point : Point :=
    {[OFFSET_64 := VInt 16; DURATION_64 := VInt 8; "pitch" := VInt 2]} in
  let stretched : Point :=
    {[OFFSET_64 := VInt 8; DURATION_64 := VInt 4; "pitch" := VInt 2]} in
  timed stretched /\
  (is_Some (stretched !! DURATION_64) <-> is_Some (point !! DURATION_64)) /\
  forall key, key <> OFFSET_64 -> key <> DURATION_64 ->
              stretched !! key = point !! key.
Proof.
  apply (stretch_point_frame (fun _ => Raise (ValueError "")) (NFloat 0.5)
           {[OFFSET_64 := VInt 16; DURATION_64 := VInt 8; "pitch" := VInt 2]}
           {[OFFSET_64 := VInt 8; DURATION_64 := VInt 4; "pitch" := VInt 2]}).
  reflexivity.
Defined.

(** ** degree_in_key and degree_in_key_with_octave *)

(** [degree_in_key] fails exactly when the point has no [degree], with
    [KeyError], or when the key rejects the degree, with the key's own
    exception. *)
Theorem degree_in_key_point_raises (key : Key) (point : Point) (e : exn) :
  degree_in_key_point key point = Raise e <->
  (point !! "degree" = None /\ e = KeyError "degree") \/
  (exists degree, point !! "degree" = Some degree /\
                  degree_to_pitch key degree = Raise e).
Proof.
  unfold degree_in_key_point, getitem.
  destruct (point !! "degree") as [degree|]; simpl.
  - destruct (degree_to_pitch key degree) as [pitch|e'] eqn:Hk; simpl.
    + split; [discriminate|].
      intros [[? _]|(d & [= <-] & Hd)]; [discriminate|congruence].
    + split.
      * intros [= <-]. right. eauto.
      * intros [[? _]|(d & [= <-] & Hd)]; [discriminate|congruence].
  - split.
    + intros [= <-]. left. auto.
    + intros [[_ ->]|(d & ? & _)]; [reflexivity|discriminate].
Qed.

(** Where [degree_in_key] succeeds it sets [pitch] to the key's answer for
    the point's degree and changes nothing else, so a second application
    returns the same point. *)
Theorem degree_in_key_point_idempotent (key : Key) (point resolved : Point) :
  degree_in_key_point key point = Ok resolved ->
  (forall name, name <> "pitch" -> resolved !! name = point !! name) /\
  (exists degree pitch,
      point !! "degree" = Some degree /\
      degree_to_pitch key degree = Ok pitch /\
      resolved !! "pitch" = Some pitch) /\
  degree_in_key_point key resolved = Ok resolved.
Proof.
  unfold degree_in_key_point, getitem. intros Hrun.
  destruct (point !! "degree") as [degree|] eqn:Hd; [|discriminate].
  rewrite bind_Ok in Hrun.
  destruct (degree_to_pitch key degree) as [pitch|] eqn:Hk; [|discriminate].
  injection Hrun as <-. split; [|split].
  - intros name Hne. now rewrite lookup_insert_ne by congruence.
  - exists degree, pitch. rewrite lookup_insert_eq. auto.
  - rewrite lookup_insert_ne by discriminate.
    rewrite Hd, bind_Ok, Hk, bind_Ok. now rewrite insert_insert_eq.
Qed.

Lemma degree_in_key_point_idempotent_witness :
  let key := {| degree_to_pitch := fun _ => Ok (VInt 2);
                degree_to_pitch_and_octave := fun _ => Ok (VInt 2, VInt 0) |} in
  let point : Point := {["degree" := VInt 3]} in
  let resolved : Point := {["degree" := VInt 3; "pitch" := VInt 2]} in
  (forall name, name <> "pitch" -> resolved !! name = point !! name) /\
  (exists degree pitch,
      point !! "degree" = Some degree /\
      degree_to_pitch key degree = Ok pitch /\
      resolved !! "pitch" = Some pitch) /\
  degree_in_key_point key resolved = Ok resolved.
Proof.
  apply (degree_in_key_point_idempotent
           {| degree_to_pitch := fun _ => Ok (VInt 2);
              degree_to_pitch_and_octave := fun _ => Ok (VInt 2, VInt 0) |}
           {["degree" := VInt 3]}
           {["degree" := VInt 3; "pitch" := VInt 2]}).
  reflexivity.
Defined.

(** Where [degree_in_key_with_octave] succeeds, the point has a degree, the
    key answers it with a pitch and an integer octave, and the result is the
    point with that pitch and with the key's octave plus [base_octave];
    raising [base_octave] by [d] raises the stored octave by [d] and changes
    nothing else. *)
Theorem degree_in_key_with_octave_base (key : Key) (base_octave d : Z)
    (point resolved : Point) :
  degree_in_key_with_octave_point key base_octave point = Ok resolved ->
  exists degree pitch key_octave,
    point !! "degree" = Some degree /\
    degree_to_pitch_and_octave key degree = Ok (pitch, VInt key_octave) /\
    resolved
    = <["octave" := VInt (key_octave + base_octave)]> (<["pitch" := pitch]> point) /\
    degree_in_key_with_octave_point key (base_octave + d) point
    = Ok (<["octave" := VInt (key_octave + base_octave + d)]> resolved).
Proof.
  unfold degree_in_key_with_octave_point, getitem. intros Hrun.
  destruct (point !! "degree") as [degree|]; [|discriminate].
  rewrite bind_Ok in *.
  destruct (degree_to_pitch_and_octave key degree) as [[pitch octave]|] eqn:Hk;
    [|discriminate].
  rewrite bind_Ok in *. simpl fst in *. simpl snd in *. cbv zeta in *.
  destruct octave as [o|s]; [|discriminate]. simpl as_int in *.
  rewrite bind_Ok in *. injection Hrun as <-.
  exists degree, pitch, o.
  split; [reflexivity|]. split; [exact Hk|]. split; [reflexivity|].
  rewrite insert_insert_eq. do 3 f_equal. lia.
Qed.

Lemma degree_in_key_with_octave_base_witness :
  let key := {| degree_to_pitch := fun _ => Ok (VInt 2);
                degree_to_pitch_and_octave := fun _ => Ok (VInt 2, VInt 1) |} in
  let point : Point := {["degree" := VInt 10]} in
  let resolved : Point :=
    {["degree" := VInt 10; "pitch" := VInt 2; "octave" := VInt 5]} in
  exists degree pitch key_octave,
    point !! "degree" = Some degree /\
    degree_to_pitch_and_octave key degree = Ok (pitch, VInt key_octave) /\
    resolved = <["octave" := VInt (key_octave + 4)]> (<["pitch" := pitch]> point) /\
    degree_in_key_with_octave_point key (4 + 1) point
    = Ok (<["octave" := VInt (key_octave + 4 + 1)]> resolved).
Proof.
  apply (degree_in_key_with_octave_base
           {| degree_to_pitch := fun _ => Ok (VInt 2);
              degree_to_pitch_and_octave := fun _ => Ok (VInt 2, VInt 1) |}
           4 1 {["degree" := VInt 10]}
           {["degree" := VInt 10; "pitch" := VInt 2; "octave" := VInt 5]}).
  reflexivity.
Defined.

(** ** midi_pitch *)

Lemma midi_table_range (pitch : Z) :
  exists base,
    [2; 9; 4; 11; 5; 0; 7] !! Z.to_nat (pitch `mod` 7) = Some base /\
    list_getitem [2; 9; 4; 11; 5; 0; 7] (pitch `mod` 7) = Ok base /\
    0 <= base <= 11.
Proof.
  assert (Hr : 0 <= pitch `mod` 7 < 7) by (apply Z.mod_pos_bound; lia).
  assert (Hcases : pitch `mod` 7 = 0 \/ pitch `mod` 7 = 1 \/ pitch `mod` 7 = 2 \/
                   pitch `mod` 7 = 3 \/ pitch `mod` 7 = 4 \/ pitch `mod` 7 = 5 \/
                   pitch `mod` 7 = 6) by lia.
  destruct Hcases as [-> |[-> |[-> |[-> |[-> |[-> | ->]]]]]];
    eexists; (split; [reflexivity|split; [reflexivity|lia]]).
Qed.

Lemma midi_pitch_point_inv (modifiers : Z -> Z) (point computed : Point) :
  midi_pitch_point modifiers point = Ok computed ->
  exists pitch octave base,
    point !! "pitch" = Some (VInt pitch) /\
    point !! "octave" = Some (VInt octave) /\
    [2; 9; 4; 11; 5; 0; 7] !! Z.to_nat (pitch `mod` 7) = Some base /\
    0 <= base <= 11 /\
    computed = <[MIDI_PITCH := VInt (base + modifiers pitch + 12 * octave)]> point.
Proof.
  unfold midi_pitch_point, getitem. intros Hrun.
  destruct (point !! "octave") as [octave_v|]; [|discriminate].
  rewrite bind_Ok in Hrun.
  destruct (point !! "pitch") as [[pitch|s]|]; [| discriminate|discriminate].
  rewrite bind_Ok in Hrun. simpl as_int in Hrun. rewrite bind_Ok in Hrun.
  destruct (midi_table_range pitch) as (base & Hlookup & Hbase & Hrange).
  rewrite Hbase, bind_Ok in Hrun. cbv zeta in Hrun.
  destruct octave_v as [octave|s]; [|discriminate].
  simpl as_int in Hrun. rewrite bind_Ok in Hrun. injection Hrun as <-.
  exists pitch, octave, base. auto.
Qed.

(** [midi_pitch] succeeds exactly on the points that carry an integer [pitch]
    and an integer [octave]; the value it stores is then
    [12 * octave + modifiers(pitch)] plus the table's semitone for
    [pitch mod 7], which lies between 0 and 11. *)
Theorem midi_pitch_point_ok_iff (modifiers : Z -> Z) (point computed : Point) :
  midi_pitch_point modifiers point = Ok computed <->
  exists pitch octave base,
    point !! "pitch" = Some (VInt pitch) /\
    point !! "octave" = Some (VInt octave) /\
    [2; 9; 4; 11; 5; 0; 7] !! Z.to_nat (pitch `mod` 7) = Some base /\
    0 <= base <= 11 /\
    computed = <[MIDI_PITCH := VInt (base + modifiers pitch + 12 * octave)]> point.
Proof.
  split; [apply midi_pitch_point_inv|].
  intros (pitch & octave & base & Hp & Ho & Hlookup & Hrange & ->).
  unfold midi_pitch_point, getitem.
  rewrite Ho, bind_Ok, Hp, bind_Ok. simpl as_int. rewrite bind_Ok.
  destruct (midi_table_range pitch) as (base' & Hlookup' & Hbase & _).
  rewrite Hbase, bind_Ok. cbv zeta. rewrite bind_Ok.
  congruence.
Qed.

(** [midi_pitch] does not read [midi_pitch]: whatever was stored there, by
    [transpose] or [invert] for instance, is replaced by the value computed
    from [pitch] and [octave]; and applying the transform twice is applying
    it once. *)
Theorem midi_pitch_point_recomputes (modifiers : Z -> Z) (point : Point) :
  (forall v, midi_pitch_point modifiers (<[MIDI_PITCH := v]> point)
             = midi_pitch_point modifiers point) /\
  (midi_pitch_point modifiers point ≫= midi_pitch_point modifiers)
  = midi_pitch_point modifiers point.
Proof.
  assert (Hstored : forall v,
            midi_pitch_point modifiers (<[MIDI_PITCH := v]> point)
            = midi_pitch_point modifiers point).
  { intros v. unfold midi_pitch_point, getitem.
    rewrite !lookup_insert_ne by discriminate.
    destruct (point !! "octave") as [octave_v|]; [|reflexivity].
    rewrite !bind_Ok.
    destruct (point !! "pitch") as [[pitch|s]|]; [|reflexivity|reflexivity].
    rewrite !bind_Ok. simpl as_int. rewrite !bind_Ok.
    destruct (list_getitem _ _); [|reflexivity]. rewrite !bind_Ok. cbv zeta.
    destruct (as_int octave_v); [|reflexivity]. rewrite !bind_Ok.
    now rewrite insert_insert_eq. }
  split; [exact Hstored|].
  destruct (midi_pitch_point modifiers point) as [computed|e] eqn:Hrun;
    [|reflexivity].
  rewrite bind_Ok.
  destruct (midi_pitch_point_inv modifiers point computed)
    as (pitch & octave & base & _ & _ & _ & _ & ->).
  - rewrite <- Hrun. reflexivity.
  - apply Hstored.
Qed.

(** An octave is twelve semitones: computing [midi_pitch] with the octave
    raised by [d] is computing it with the octave as it is and transposing
    by [12 * d]. *)
Theorem midi_pitch_point_octave_shift (modifiers : Z -> Z) (point : Point)
    (octave d : Z) :
  point !! "octave" = Some (VInt octave) ->
  midi_pitch_point modifiers (<["octave" := VInt (octave + d)]> point)
  = (shifted ← (midi_pitch_point modifiers point ≫= transpose_point (12 * d));
     Ok (<["octave" := VInt (octave + d)]> shifted)).
Proof.
  intros Ho. unfold midi_pitch_point, getitem.
  rewrite lookup_insert_eq, Ho, !bind_Ok.
  rewrite lookup_insert_ne by discriminate.
  destruct (point !! "pitch") as [[pitch|s]|]; [|reflexivity|reflexivity].
  rewrite !bind_Ok. simpl as_int. rewrite !bind_Ok.
  destruct (list_getitem _ _) as [base|]; [|reflexivity].
  rewrite !bind_Ok. cbv zeta. simpl as_int. rewrite ?bind_Ok.
  unfold transpose_point. rewrite lookup_insert_eq. simpl as_int.
  rewrite ?bind_Ok, insert_insert_eq.
  rewrite (insert_insert_ne _ "octave" MIDI_PITCH) by discriminate.
  do 3 f_equal. lia.
Qed.

Lemma midi_pitch_point_octave_shift_witness :
  let point : Point := {["pitch" := VInt 5; "octave" := VInt 4]} in
  midi_pitch_point (fun _ => 0) (<["octave" := VInt (4 + 1)]> point)
  = (shifted ← (midi_pitch_point (fun _ => 0) point ≫= transpose_point (12 * 1));
     Ok (<["octave" := VInt (4 + 1)]> shifted)).
Proof.
  apply (midi_pitch_point_octave_shift (fun _ => 0)
           {["pitch" := VInt 5; "octave" := VInt 4]} 4 1).
  reflexivity.
Defined.

(** ** lilypond *)

(** For a pitch whose accidental adjustment [m] is not negative the rendering
    is the lower-cased letter, [is] repeated [m] times, the octave marks and
    the duration token. *)
Theorem lilypond_point_sharp (modifiers : Z -> Z) (letter : Z -> string)
    (point : Point) (pitch octave duration : Z) :
  point !! "lilypond" = None ->
  point !! "pitch" = Some (VInt pitch) ->
  point !! "octave" = Some (VInt octave) ->
  point !! DURATION_64 = Some (VInt duration) ->
  duration <> 0 ->
  0 <= modifiers pitch ->
  lilypond_point modifiers letter point
  = Ok (<["lilypond" :=
           VStr ((lower (letter pitch) ++ str_mul "is" (modifiers pitch))
                 ++ octave_string octave ++ str_of_int (64 ÷ duration))]> point)
  /\ String.length (str_mul "is" (modifiers pitch))
     = (2 * Z.to_nat (modifiers pitch))%nat.
Proof.
  intros Hl Hp Ho Hd Hnz Hm. split.
  - rewrite (lilypond_point_render modifiers letter point pitch octave duration)
      by assumption.
    do 5 f_equal. unfold modifier_string.
    destruct (Z.ltb_spec 0 (modifiers pitch)); [reflexivity|].
    destruct (Z.ltb_spec (modifiers pitch) 0); [lia|].
    symmetry. apply str_mul_nonpos. lia.
  - rewrite str_mul_length. simpl. lia.
Qed.

Lemma lilypond_point_sharp_witness :
  let point : Point :=
    {["pitch" := VInt 4; "octave" := VInt 6; DURATION_64 := VInt 32]} in
  lilypond_point (fun _ => 2) (fun _ => "F") point
  = Ok (<["lilypond" := VStr "fisis''2"]> point)
  /\ String.length "isis" = 4%nat.
Proof.
  exact (lilypond_point_sharp (fun _ => 2) (fun _ => "F")
           {["pitch" := VInt 4; "octave" := VInt 6; DURATION_64 := VInt 32]}
           4 6 32 eq_refl eq_refl eq_refl eq_refl
           ltac:(discriminate) ltac:(discriminate)).
Defined.

(** [lilypond] succeeds exactly in two cases: the point is already rendered,
    and is returned as it is; or it carries an integer [pitch], an integer
    [octave] and a nonzero integer [duration], and only the [lilypond] key is
    added. *)
Theorem lilypond_point_ok_iff (modifiers : Z -> Z) (letter : Z -> string)
    (point rendered : Point) :
  lilypond_point modifiers letter point = Ok rendered <->
  (is_Some (point !! "lilypond") /\ rendered = point) \/
  (point !! "lilypond" = None /\
   exists pitch octave duration,
     point !! "pitch" = Some (VInt pitch) /\
     point !! "octave" = Some (VInt octave) /\
     point !! DURATION_64 = Some (VInt duration) /\
     duration <> 0 /\
     rendered
     = <["lilypond" :=
          VStr ((lower (letter pitch) ++ modifier_string (modifiers pitch))
                ++ octave_string octave ++ str_of_int (64 ÷ duration))]> point).
Proof.
  split.
  - unfold lilypond_point, getitem. intros Hrun.
    destruct (point !! "lilypond") as [v|] eqn:Hl.
    { left. injection Hrun as <-. eauto. }
    right. split; [reflexivity|].
    destruct (point !! "octave") as [octave_v|]; [|discriminate Hrun].
    rewrite bind_Ok in Hrun.
    destruct (point !! "pitch") as [pitch_v|]; [|discriminate Hrun].
    rewrite bind_Ok in Hrun.
    destruct (point !! DURATION_64) as [duration_v|]; [|discriminate Hrun].
    rewrite bind_Ok in Hrun.
    destruct octave_v as [octave|s]; [|discriminate Hrun].
    destruct pitch_v as [pitch|s]; [|discriminate Hrun].
    destruct duration_v as [duration|s]; [|discriminate Hrun].
    simpl as_int in Hrun. rewrite !bind_Ok in Hrun.
    cbv zeta in Hrun. unfold duration_string in Hrun.
    destruct (Z.eqb_spec duration 0) as [|Hnz]; [discriminate Hrun|].
    rewrite bind_Ok in Hrun. injection Hrun as <-.
    exists pitch, octave, duration. auto.
  - intros [[[v Hv] ->]|(Hl & pitch & octave & duration & Hp & Ho & Hd & Hnz & ->)].
    + now apply lilypond_point_cached with v.
    + now apply lilypond_point_render.
Qed.

(** ** dynamics *)

Lemma dynamics_by_length (start : dynamic) (end_ : option dynamic) (seq : OSequence) :
  dynamics start end_ seq
  = (velocities ← dynamics_velocities start end_ (length seq);
     Ok (zip_with set_velocity seq velocities)).
Proof.
  unfold dynamics, dynamics_velocities.
  destruct (resolve_start start) as [sv|]; [|reflexivity]. rewrite !bind_Ok.
  destruct (resolve_end start end_ sv) as [ev|]; [|reflexivity]. rewrite !bind_Ok.
  cbv zeta. destruct seq as [|point seq]; [reflexivity|].
  change (length (point :: seq) =? 0)%nat with false. cbv iota.
  destruct (float_of_int ev) as [fe|]; [|reflexivity]. rewrite !bind_Ok.
  destruct (float_of_int sv) as [fs|]; [|reflexivity]. rewrite !bind_Ok.
  destruct (float_div_int _ _) as [vi|]; [|reflexivity]. rewrite !bind_Ok.
  reflexivity.
Qed.

Lemma dynamics_velocities_length (start : dynamic) (end_ : option dynamic) (n : nat)
    (velocities : list Z) :
  dynamics_velocities start end_ n = Ok velocities -> length velocities = n.
Proof.
  unfold dynamics_velocities.
  destruct (resolve_start start) as [sv|]; [|discriminate]. rewrite !bind_Ok.
  destruct (resolve_end start end_ sv) as [ev|]; [|discriminate]. rewrite !bind_Ok.
  destruct n as [|n]; [now intros [= <-]|].
  change (S n =? 0)%nat with false. cbv iota.
  destruct (float_of_int ev) as [fe|]; [|discriminate]. rewrite !bind_Ok.
  destruct (float_of_int sv) as [fs|]; [|discriminate]. rewrite !bind_Ok.
  destruct (float_div_int _ _) as [vi|]; [|discriminate]. rewrite !bind_Ok.
  intros Hrun. apply for_each_ok_length in Hrun. rewrite Hrun.
  unfold range. now rewrite length_map, length_seq.
Qed.

Lemma zip_with_set_velocity_twice (seq : OSequence) (before after : list Z) :
  length before = length seq ->
  zip_with set_velocity (zip_with set_velocity seq before) after
  = zip_with set_velocity seq after.
Proof.
  revert before after. induction seq as [|point seq IH]; intros before after Hlen.
  - reflexivity.
  - destruct before as [|b before]; [discriminate|].
    destruct after as [|a after]; [reflexivity|]. simpl.
    unfold set_velocity at 1 2. rewrite insert_insert_eq.
    f_equal. apply IH. now injection Hlen.
Qed.

(** Where [dynamics] succeeds the result has as many points as the sequence,
    in the same order, and each is the original point with a [velocity] set:
    every other key holds what it held. *)
Theorem dynamics_frame (start : dynamic) (end_ : option dynamic)
    (seq shaped : OSequence) :
  dynamics start end_ seq = Ok shaped ->
  length shaped = length seq /\
  forall (i : nat) (point : Point),
    seq !! i = Some point ->
    exists velocity, shaped !! i = Some (<["velocity" := VInt velocity]> point).
Proof.
  rewrite dynamics_by_length. intros Hrun.
  destruct (dynamics_velocities start end_ (length seq)) as [velocities|] eqn:Hv;
    [|discriminate].
  rewrite bind_Ok in Hrun. injection Hrun as <-.
  apply dynamics_velocities_length in Hv. split.
  - rewrite length_zip_with. lia.
  - intros i point Hi.
    destruct (lookup_lt_is_Some_2 velocities i) as [velocity Hvel].
    { rewrite Hv. now apply lookup_lt_Some with point. }
    exists velocity. unfold OSequence in *.
    rewrite lookup_zip_with, Hi. simpl. now rewrite Hvel.
Qed.

Lemma dynamics_frame_witness :
  let seq : OSequence := [{[OFFSET_64 := VInt 0]}; {[OFFSET_64 := VInt 16]}] in
  let shaped : OSequence :=
    [{[OFFSET_64 := VInt 0; "velocity" := VInt 36]};
     {[OFFSET_64 := VInt 16; "velocity" := VInt 94]}] in
  length shaped = length seq /\
  forall (i : nat) (point : Point),
    seq !! i = Some point ->
    exists velocity, shaped !! i = Some (<["velocity" := VInt velocity]> point).
Proof.
  apply (dynamics_frame (DStr "pp") (Some (DStr "ff"))
           [{[OFFSET_64 := VInt 0]}; {[OFFSET_64 := VInt 16]}]
           [{[OFFSET_64 := VInt 0; "velocity" := VInt 36]};
            {[OFFSET_64 := VInt 16; "velocity" := VInt 94]}]).
  reflexivity.
Defined.

(** A later [dynamics] overrides an earlier one completely: applied to the
    result of a successful [dynamics] it gives what it gives on the original
    sequence.  In particular [dynamics] is idempotent. *)
Theorem dynamics_overrides (start1 start2 : dynamic) (end1 end2 : option dynamic)
    (seq shaped : OSequence) :
  dynamics start1 end1 seq = Ok shaped ->
  dynamics start2 end2 shaped = dynamics start2 end2 seq.
Proof.
  rewrite (dynamics_by_length start1). intros Hrun.
  destruct (dynamics_velocities start1 end1 (length seq)) as [before|] eqn:Hv;
    [|discriminate].
  rewrite bind_Ok in Hrun. injection Hrun as <-.
  apply dynamics_velocities_length in Hv.
  rewrite !(dynamics_by_length start2).
  rewrite length_zip_with, Hv, Nat.min_id.
  destruct (dynamics_velocities start2 end2 (length seq)) as [after|];
    [|reflexivity].
  rewrite !bind_Ok. f_equal. now apply zip_with_set_velocity_twice.
Qed.

Lemma dynamics_overrides_witness :
  dynamics (DStr "f") None
    [{[OFFSET_64 := VInt 0; "velocity" := VInt 36]};
     {[OFFSET_64 := VInt 16; "velocity" := VInt 94]}]
  = dynamics (DStr "f") None [{[OFFSET_64 := VInt 0]}; {[OFFSET_64 := VInt 16]}].
Proof.
  apply (dynamics_overrides (DStr "pp") (DStr "f") (Some (DStr "ff")) None
           [{[OFFSET_64 := VInt 0]}; {[OFFSET_64 := VInt 16]}]).
  reflexivity.
Defined.

(** The start marker is reported by name whatever the end argument and the
    sequence, the empty one included. *)
Lemma dynamics_unknown_start_witness :
  dynamics (DStr "forte") (Some (DInt 100)) []
  = Raise (ValueError ("Unknown start dynamic: " ++ "forte" ++ ", must be in "
                       ++ dict_keys_str _dynamic_markers_to_velocity)).
Proof.
  apply (dynamics_unknown_start "forte" (Some (DInt 100)) []).
  reflexivity.
Defined.

(** ** reverse *)

Lemma for_each_ok_all {A B : Type} (f : A -> result B) (l : list A) (r : list B) :
  for_each f l = Ok r -> Forall (fun x => exists y, f x = Ok y) l.
Proof.
  revert r. induction l as [|x l IH]; intros r; simpl; [constructor|].
  destruct (f x) as [y|] eqn:Hx; [|discriminate]. rewrite bind_Ok.
  destruct (for_each f l) as [ys|]; [|discriminate]. intros _.
  constructor; [eauto|]. now apply (IH ys).
Qed.

Lemma map_snd_zip {A B : Type} (keys : list A) (l : list B) :
  length keys = length l -> map snd (zip keys l) = l.
Proof.
  revert keys. induction l as [|x l IH]; intros [|k keys] Hlen;
    try discriminate; [reflexivity|].
  simpl. f_equal. apply IH. now injection Hlen.
Qed.

Lemma sorted_by_key_perm {A : Type} (key : A -> result Z) (l r : list A) :
  sorted_by_key key l = Ok r -> Permutation l r.
Proof.
  unfold sorted_by_key.
  destruct (for_each key l) as [keys|] eqn:Hkeys; [|discriminate].
  rewrite bind_Ok. intros [= <-].
  rewrite <- (sort_keyed_perm (zip keys l)).
  rewrite map_snd_zip; [reflexivity|].
  now apply for_each_ok_length in Hkeys.
Qed.

(** Whatever the sequence, a result of [reverse] never contains the
    placeholder [{offset: 0}], every point of it has an integer offset, and it
    has at most one point more than the sequence. *)
Theorem reverse_result_shape (seq reversed : OSequence) :
  reverse seq = Ok reversed ->
  Forall (fun point : Point =>
            point <> anchor /\ exists z, point !! OFFSET_64 = Some (VInt z))
         reversed /\
  (length reversed <= S (length seq))%nat.
Proof.
  unfold reverse. intros Hrun.
  destruct (next_offset seq) as [last_offset|]; [|discriminate].
  rewrite bind_Ok in Hrun.
  assert (Hold : forall old : OSequence,
            (length old <= S (length seq))%nat ->
            (for_each (reflect_point last_offset) old
             ≫= λ new_points : list Point,
                  sorted_by_key (λ x : Point, getitem_int x OFFSET_64)
                    (filter (λ new_point : Point, new_point ≠ anchor) new_points))
            = Ok reversed ->
            Forall (fun point : Point =>
                      point <> anchor /\ exists z, point !! OFFSET_64 = Some (VInt z))
                   reversed /\
            (length reversed <= S (length seq))%nat).
  { intros old Hlen Hloop.
    destruct (for_each (reflect_point last_offset) old) as [new_points|] eqn:Hnew;
      [|discriminate].
    rewrite bind_Ok in Hloop.
    pose proof (sorted_by_key_perm _ _ _ Hloop) as Hperm.
    split.
    - eapply Permutation_Forall; [exact Hperm|].
      unfold sorted_by_key in Hloop.
      destruct (for_each _ (filter _ new_points)) as [keys|] eqn:Hkeys;
        [|discriminate].
      apply for_each_ok_all in Hkeys.
      apply Forall_forall. intros point Hin.
      split; [now apply list_elem_of_filter in Hin|].
      rewrite Forall_forall in Hkeys. destruct (Hkeys point Hin) as [z Hz].
      unfold getitem_int, getitem in Hz.
      destruct (point !! OFFSET_64) as [[z'|s]|]; try discriminate. eauto.
    - rewrite <- (Permutation_length Hperm).
      apply for_each_ok_length in Hnew.
      pose proof (length_filter (λ new_point : Point, new_point ≠ anchor) new_points).
      lia. }
  destruct seq as [|first rest].
  - rewrite bind_Ok in Hrun. apply (Hold []); [simpl; lia|exact Hrun].
  - destruct (getitem first OFFSET_64) as [v|]; [|discriminate].
    rewrite bind_Ok in Hrun.
    destruct (value_nonzero v).
    + destruct (concatenate [anchor] (first :: rest)) as [old|] eqn:Hcat;
        [|discriminate].
      rewrite bind_Ok in Hrun. apply (Hold old); [|exact Hrun].
      unfold concatenate in Hcat.
      destruct (next_offset [anchor]) as [shift|]; [|discriminate].
      rewrite bind_Ok in Hcat.
      destruct (for_each (shift_point shift) (first :: rest)) as [shifted|] eqn:Hs;
        [|discriminate].
      rewrite bind_Ok in Hcat. injection Hcat as <-.
      apply for_each_ok_length in Hs. simpl in *. lia.
    + rewrite bind_Ok in Hrun. apply (Hold (first :: rest)); [lia|exact Hrun].
Qed.

Lemma reverse_result_shape_witness :
  let reversed : OSequence :=
    [{[OFFSET_64 := VInt 0; DURATION_64 := VInt 2]}; {[OFFSET_64 := VInt 5]}] in
  Forall (fun point : Point =>
            point <> anchor /\ exists z, point !! OFFSET_64 = Some (VInt z))
         reversed /\
  (length reversed <= S (length [({[OFFSET_64 := VInt 3; DURATION_64 := VInt 2]} : Point)]))%nat.
Proof.
  apply (reverse_result_shape
           [{[OFFSET_64 := VInt 3; DURATION_64 := VInt 2]}]
           [{[OFFSET_64 := VInt 0; DURATION_64 := VInt 2]}; {[OFFSET_64 := VInt 5]}]).
  reflexivity.
Defined.

Lemma sorted_starts_at_zero (l : OSequence) :
  StronglySorted (fun a b => offset_of a <= offset_of b) l ->
  Forall (fun q => 0 <= offset_of q) l ->
  (exists q, In q l /\ offset_of q = 0) ->
  anchor_prefixed l = l.
Proof.
  intros Hsorted Hpos (q & Hq & Hzero).
  destruct l as [|h t]; [reflexivity|].
  unfold anchor_prefixed.
  assert (Hh : offset_of h = 0); [|now rewrite Hh].
  inversion Hsorted as [|? ? _ Hmin]; subst.
  inversion Hpos as [|? ? Hh _]; subst.
  destruct Hq as [->|Hq]; [exact Hzero|].
  rewrite Forall_forall in Hmin. apply list_elem_of_In in Hq.
  specialize (Hmin q Hq). simpl in Hmin. lia.
Qed.

Lemma reflected_anchor (last_offset : Z) :
  reflected last_offset anchor = {[OFFSET_64 := VInt last_offset]}.
Proof.
  unfold reflected, anchor, offset_of, duration_of.
  rewrite lookup_singleton_eq.
  rewrite lookup_singleton_ne by apply OFFSET_64_neq_DURATION_64.
  rewrite insert_singleton_eq. do 2 f_equal. lia.
Qed.

Lemma reflected_marker (last_offset : Z) :
  reflected last_offset {[OFFSET_64 := VInt last_offset]} = anchor.
Proof.
  unfold reflected, anchor, offset_of, duration_of.
  rewrite lookup_singleton_eq.
  rewrite lookup_singleton_ne by apply OFFSET_64_neq_DURATION_64.
  rewrite insert_singleton_eq. do 2 f_equal. lia.
Qed.

Lemma marker_neq_anchor (last_offset : Z) :
  last_offset <> 0 -> ({[OFFSET_64 := VInt last_offset]} : Point) <> anchor.
Proof.
  intros Hne Heq. apply (f_equal (fun m : Point => m !! OFFSET_64)) in Heq.
  unfold anchor in Heq. rewrite !lookup_singleton_eq in Heq. congruence.
Qed.

(** The placeholder restores a leading silence.  For a sequence of
    well-formed points with non-negative offsets and durations that starts
    after offset 0, and in which no point consists of the offset alone with
    value 0 or [next_offset()]: the reversed sequence ends with a marker at
    [next_offset()], and reversing it again gives a permutation of the
    sequence. *)
Theorem reverse_twice_leading_silence (first : Point) (rest : OSequence) :
  let seq := first :: rest in
  offset_of first <> 0 ->
  Forall timed seq ->
  Forall (fun point => 0 <= offset_of point /\ 0 <= duration_of point) seq ->
  Forall (fun point : Point =>
            point <> anchor /\ point <> {[OFFSET_64 := VInt (max_end seq)]}) seq ->
  exists once twice : OSequence,
    reverse seq = Ok once /\
    In {[OFFSET_64 := VInt (max_end seq)]} once /\
    reverse once = Ok twice /\
    Permutation seq twice.
Proof.
  intros seq Hfirst Ht Hpos Hbare.
  set (L := max_end seq) in *.
  set (marker := ({[OFFSET_64 := VInt L]} : Point)) in *.
  pose proof (max_end_ge seq) as Hge. fold L in Hge.
  assert (HL : 0 < L).
  { inversion Hge as [|? ? Hend _]; subst.
    inversion Hpos as [|? ? [Ho Hd] _]; subst. lia. }
  assert (Hmarker : marker <> anchor) by (apply marker_neq_anchor; lia).
  (* the first pass *)
  assert (Hkept : filter (fun new_point : Point => new_point <> anchor)
                    (map (reflected L) (anchor_prefixed seq))
                  = marker :: map (reflected L) seq).
  { unfold seq at 1, anchor_prefixed.
    destruct (Z.eqb_spec (offset_of first) 0) as [|_]; [contradiction|].
    rewrite map_cons, reflected_anchor. fold marker.
    rewrite filter_cons_True by exact Hmarker. f_equal.
    apply filter_all. apply Forall_map.
    rewrite Forall_forall in Ht, Hbare. apply Forall_forall.
    intros point Hin Heq. destruct (Hbare point Hin) as [_ Hnot].
    apply Hnot. apply reflected_anchor_inv; [now apply Ht|exact Heq]. }
  set (once := sort_by offset_of (marker :: map (reflected L) seq)).
  assert (Hrev1 : reverse seq = Ok once).
  { rewrite (reverse_timed seq Ht). fold L. now rewrite Hkept. }
  assert (Hperm1 : Permutation (marker :: map (reflected L) seq) once)
    by apply sort_by_perm.
  assert (Honce : forall q, In q once ->
            q = marker \/ exists p, In p seq /\ q = reflected L p).
  { intros q Hq. apply (Permutation_in _ (Permutation_sym Hperm1)) in Hq.
    destruct Hq as [<-|Hq]; [now left|]. right.
    apply in_map_iff in Hq. destruct Hq as (p & <- & Hp). eauto. }
  assert (Hmarker_in : In marker once).
  { apply (Permutation_in _ Hperm1). now left. }
  assert (Hin_once : forall p, In p seq -> In (reflected L p) once).
  { intros p Hp. apply (Permutation_in _ Hperm1). right. now apply in_map. }
  assert (Ht_in : forall p, In p seq -> timed p).
  { intros p Hp. rewrite Forall_forall in Ht. apply Ht. now apply list_elem_of_In. }
  assert (Hmarker_off : offset_of marker = L) by reflexivity.
  assert (Hmarker_dur : duration_of marker = 0) by reflexivity.
  assert (Ht1 : Forall timed once).
  { apply Forall_forall. intros q Hq. apply list_elem_of_In in Hq.
    destruct (Honce q Hq) as [->|(p & Hp & ->)].
    - split; [exists L; reflexivity|left; reflexivity].
    - apply timed_reflected. now apply Ht_in. }
  assert (HL1 : max_end once = L).
  { apply max_end_unique.
    - apply Forall_forall. intros q Hq. apply list_elem_of_In in Hq.
      destruct (Honce q Hq) as [->|(p & Hp & ->)].
      + rewrite Hmarker_off, Hmarker_dur. lia.
      + rewrite offset_of_reflected, duration_of_reflected.
        rewrite Forall_forall in Hpos. apply list_elem_of_In in Hp.
        destruct (Hpos p Hp). lia.
    - exists marker. split; [exact Hmarker_in|].
      rewrite Hmarker_off, Hmarker_dur. lia. }
  assert (Hap1 : anchor_prefixed once = once).
  { apply sorted_starts_at_zero.
    - apply sort_by_sorted.
    - apply Forall_forall. intros q Hq. apply list_elem_of_In in Hq.
      destruct (Honce q Hq) as [->|(p & Hp & ->)].
      + rewrite Hmarker_off. lia.
      + rewrite offset_of_reflected.
        rewrite Forall_forall in Hge. apply list_elem_of_In in Hp.
        specialize (Hge p Hp). simpl in Hge. lia.
    - destruct (max_end_attained seq) as (top & Htop & Hmax); [discriminate|].
      fold L in Hmax. exists (reflected L top).
      split; [now apply Hin_once|]. rewrite offset_of_reflected. lia. }
  (* the second pass *)
  exists once,
    (sort_by offset_of
       (filter (fun new_point : Point => new_point <> anchor)
          (map (reflected L) once))).
  split; [exact Hrev1|]. split; [exact Hmarker_in|]. split.
  { rewrite (reverse_timed once Ht1). now rewrite HL1, Hap1. }
  rewrite <- sort_by_perm.
  change (map (reflected L) once) with (reflected L <$> once).
  rewrite <- Hperm1.
  change (reflected L <$> marker :: map (reflected L) seq)
    with (reflected L marker :: map (reflected L) (map (reflected L) seq)).
  unfold marker at 1. rewrite reflected_marker.
  rewrite filter_cons_False by (intros Hne; now apply Hne).
  rewrite map_map.
  rewrite (map_ext_in _ id); [|intros p Hp; apply reflected_involutive; now apply Ht_in].
  rewrite map_id. rewrite filter_all; [reflexivity|].
  eapply Forall_impl; [exact Hbare|]. now intros p [Hp _].
Qed.

Lemma reverse_twice_leading_silence_witness :
  let seq : OSequence :=
    [{[OFFSET_64 := VInt 3; DURATION_64 := VInt 2]};
     {[OFFSET_64 := VInt 5; DURATION_64 := VInt 1]}] in
  exists once twice : OSequence,
    reverse seq = Ok once /\
    In {[OFFSET_64 := VInt (max_end seq)]} once /\
    reverse once = Ok twice /\
    Permutation seq twice.
Proof.
  apply (reverse_twice_leading_silence
           {[OFFSET_64 := VInt 3; DURATION_64 := VInt 2]}
           [{[OFFSET_64 := VInt 5; DURATION_64 := VInt 1]}]).
  - vm_compute. discriminate.
  - repeat constructor; solve [eexists; reflexivity | right; eexists; reflexivity].
  - repeat constructor; vm_compute; discriminate.
  - repeat constructor; apply (bool_decide_unpack _); vm_compute; exact I.
Defined.

(** Reversal keeps the length of the sequence in time: for well-formed points
    with non-negative offsets and durations, [next_offset()] of the reversed
    sequence is [next_offset()] of the sequence. *)
Theorem reverse_preserves_next_offset (seq : OSequence) :
  Forall timed seq ->
  Forall (fun point => 0 <= offset_of point /\ 0 <= duration_of point) seq ->
  exists reversed : OSequence,
    reverse seq = Ok reversed /\ next_offset reversed = next_offset seq.
Proof.
  intros Ht Hpos.
  set (L := max_end seq).
  set (kept := filter (fun new_point : Point => new_point <> anchor)
                 (map (reflected L) (anchor_prefixed seq))).
  exists (sort_by offset_of kept).
  split; [now apply reverse_timed|].
  pose proof (sort_by_perm offset_of kept) as Hperm.
  pose proof (timed_anchor_prefixed seq Ht) as Htp.
  (* the points of the result *)
  assert (Hfrom : forall q, In q (sort_by offset_of kept) ->
            q <> anchor /\
            exists p, In p (anchor_prefixed seq) /\ q = reflected L p).
  { intros q Hq. apply (Permutation_in _ (Permutation_sym Hperm)) in Hq.
    apply list_elem_of_In, list_elem_of_filter in Hq. destruct Hq as [Hne Hq].
    split; [exact Hne|].
    apply list_elem_of_In, in_map_iff in Hq. destruct Hq as (p & <- & Hp). eauto. }
  assert (Hinto : forall p, In p (anchor_prefixed seq) -> reflected L p <> anchor ->
            In (reflected L p) (sort_by offset_of kept)).
  { intros p Hp Hne. apply (Permutation_in _ Hperm).
    apply list_elem_of_In, list_elem_of_filter. split; [exact Hne|].
    apply list_elem_of_In. now apply in_map. }
  assert (Hoff : forall p, In p (anchor_prefixed seq) -> 0 <= offset_of p).
  { intros p Hp. destruct seq as [|first rest]; [destruct Hp|].
    assert (Hcases : p = anchor \/ In p (first :: rest)).
    { simpl in Hp. destruct (offset_of first =? 0); [now right|].
      destruct Hp as [<-|Hp]; [now left|now right]. }
    destruct Hcases as [->|Hin];
      [unfold offset_of, anchor; rewrite lookup_singleton_eq; lia|].
    rewrite Forall_forall in Hpos. apply list_elem_of_In in Hin.
    now destruct (Hpos p Hin). }
  assert (Htr : Forall timed (sort_by offset_of kept)).
  { apply Forall_forall. intros q Hq. apply list_elem_of_In in Hq.
    destruct (Hfrom q Hq) as (_ & p & Hp & ->). apply timed_reflected.
    rewrite Forall_forall in Htp. apply Htp. now apply list_elem_of_In. }
  rewrite (next_offset_timed _ Htr), (next_offset_timed _ Ht). f_equal. fold L.
  assert (Hle : Forall (fun q => offset_of q + duration_of q <= L)
                       (sort_by offset_of kept)).
  { apply Forall_forall. intros q Hq. apply list_elem_of_In in Hq.
    destruct (Hfrom q Hq) as (_ & p & Hp & ->).
    rewrite offset_of_reflected, duration_of_reflected.
    specialize (Hoff p Hp). lia. }
  (* a point that starts at 0 and is kept ends at [L] after reflection *)
  assert (Hstart : forall p, In p (anchor_prefixed seq) -> offset_of p = 0 ->
            reflected L p <> anchor -> max_end (sort_by offset_of kept) = L).
  { intros p Hp Hzero Hne. apply max_end_unique; [exact Hle|].
    exists (reflected L p). split; [now apply Hinto|].
    rewrite offset_of_reflected, duration_of_reflected. lia. }
  destruct seq as [|first rest] eqn:Eseq; [reflexivity|].
  destruct (Z.eq_dec (offset_of first) 0) as [Hzero|Hnz].
  - assert (Hin : In first (anchor_prefixed (first :: rest))).
    { unfold anchor_prefixed. rewrite Hzero. now left. }
    destruct (decide (reflected L first = anchor)) as [Hdrop|Hkeep];
      [|now apply (Hstart first)].
    (* the first point is the bare point at [L = 0]: every point is at 0 *)
    assert (HL : L = 0).
    { apply reflected_anchor_inv in Hdrop.
      - rewrite Hdrop in Hzero. unfold offset_of in Hzero.
        rewrite lookup_singleton_eq in Hzero. exact Hzero.
      - now inversion Ht. }
    destruct (sort_by offset_of kept) as [|q t] eqn:Er; [now rewrite HL|].
    apply max_end_unique; [exact Hle|].
    exists q. split; [now left|].
    destruct (Hfrom q) as (_ & p & Hp & ->); [now left|].
    rewrite offset_of_reflected, duration_of_reflected.
    assert (Hp' : In p (first :: rest)).
    { unfold anchor_prefixed in Hp. now rewrite Hzero in Hp. }
    pose proof (max_end_ge (first :: rest)) as Hge. fold L in Hge.
    rewrite Forall_forall in Hge, Hpos. apply list_elem_of_In in Hp'.
    specialize (Hge p Hp'). destruct (Hpos p Hp'). simpl in Hge. lia.
  - assert (HLpos : 0 < L).
    { pose proof (max_end_ge (first :: rest)) as Hge. fold L in Hge.
      inversion Hge as [|? ? Hend _]; subst.
      inversion Hpos as [|? ? [Ho Hd] _]; subst. lia. }
    apply (Hstart anchor).
    + unfold anchor_prefixed.
      destruct (Z.eqb_spec (offset_of first) 0); [contradiction|now left].
    + reflexivity.
    + rewrite reflected_anchor. apply marker_neq_anchor. lia.
Qed.

Lemma reverse_preserves_next_offset_witness :
  let seq : OSequence :=
    [{[OFFSET_64 := VInt 3; DURATION_64 := VInt 2]};
     {[OFFSET_64 := VInt 5; DURATION_64 := VInt 1]}] in
  exists reversed : OSequence,
    reverse seq = Ok reversed /\ next_offset reversed = next_offset seq.
Proof.
  apply (reverse_preserves_next_offset
           [{[OFFSET_64 := VInt 3; DURATION_64 := VInt 2]};
            {[OFFSET_64 := VInt 5; DURATION_64 := VInt 1]}]).
  - repeat constructor; solve [eexists; reflexivity | right; eexists; reflexivity].
  - repeat constructor; vm_compute; discriminate.
Defined.

Lemma point_end_ok_timed (point : Point) (z : Z) :
  point_end point = Ok z -> timed point.
Proof.
  unfold point_end, getitem_int, getitem, duration_or_zero, get_default, timed.
  intros Hrun.
  destruct (point !! OFFSET_64) as [[offset|s]|]; [|discriminate|discriminate].
  split; [now exists offset|].
  destruct (point !! DURATION_64) as [[duration|s]|].
  - right. now exists duration.
  - discriminate.
  - now left.
Qed.

(** [reverse] succeeds exactly on the sequences whose points all have an
    integer offset and an integer duration or none: a point without an
    offset, or with a string in one of the two, makes the call raise. *)
Theorem reverse_ok_iff (seq : OSequence) :
  (exists reversed, reverse seq = Ok reversed) <-> Forall timed seq.
Proof.
  split.
  - intros [reversed Hrun]. unfold reverse in Hrun.
    destruct (next_offset seq) as [last_offset|] eqn:Hnext; [|discriminate].
    unfold next_offset in Hnext.
    destruct (for_each point_end seq) as [ends|] eqn:Hends; [|discriminate].
    apply for_each_ok_all in Hends.
    eapply Forall_impl; [exact Hends|].
    intros point [z Hz]. now apply point_end_ok_timed with z.
  - intros Ht. eexists. now apply reverse_timed.
Qed.

(** ** reverse twice *)

Lemma marker_end (last_offset : Z) :
  offset_of {[OFFSET_64 := VInt last_offset]}
  + duration_of {[OFFSET_64 := VInt last_offset]} = last_offset.
Proof.
  unfold offset_of, duration_of.
  rewrite lookup_singleton_eq.
  rewrite lookup_singleton_ne by apply OFFSET_64_neq_DURATION_64. lia.
Qed.

(** Reversing twice when the sequence ends with a single bare marker: the
    first pass drops the marker and the result starts after offset 0, so the
    second pass puts the placeholder in front and reflects it back onto the
    marker. *)
Lemma reverse_twice_trailing_marker (first : Point) (rest before after : OSequence) :
  let seq := first :: rest in
  let marker : Point := {[OFFSET_64 := VInt (max_end seq)]} in
  first !! OFFSET_64 = Some (VInt 0) ->
  Forall timed seq ->
  Forall (fun point => 0 <= offset_of point) seq ->
  Forall (fun point : Point => point <> anchor) seq ->
  seq = (before ++ marker :: after)%list ->
  Forall (fun point => offset_of point + duration_of point < max_end seq)
         (before ++ after)%list ->
  exists once twice : OSequence,
    reverse seq = Ok once /\ reverse once = Ok twice /\ Permutation seq twice.
Proof.
  intros seq marker Hfirst Ht Hpos Hanchor Hsplit Hends.
  set (L := max_end seq) in *.
  set (others := (before ++ after)%list) in *.
  assert (Hoff0 : offset_of first = 0) by (unfold offset_of; now rewrite Hfirst).
  assert (Hperm0 : Permutation (marker :: others) seq).
  { rewrite Hsplit. apply Permutation_middle. }
  assert (Hmarker_in : In marker seq).
  { apply (Permutation_in _ Hperm0). now left. }
  assert (Hmarker : marker <> anchor).
  { rewrite Forall_forall in Hanchor. apply Hanchor. now apply list_elem_of_In. }
  assert (Hothers : forall p, In p others -> In p seq).
  { intros p Hp. apply (Permutation_in _ Hperm0). now right. }
  assert (Ht_in : forall p, In p others -> timed p).
  { intros p Hp. rewrite Forall_forall in Ht. apply Ht.
    apply list_elem_of_In. now apply Hothers. }
  assert (Hend_in : forall p, In p others -> offset_of p + duration_of p < L).
  { intros p Hp. rewrite Forall_forall in Hends. apply Hends.
    now apply list_elem_of_In. }
  assert (Hfirst_in : In first others).
  { assert (Hin : In first (marker :: others)).
    { apply (Permutation_in _ (Permutation_sym Hperm0)). now left. }
    destruct Hin as [Heq|Hin]; [|exact Hin]. exfalso. apply Hmarker.
    assert (HL : L = 0).
    { rewrite <- Heq in Hoff0. unfold offset_of, marker in Hoff0.
      rewrite lookup_singleton_eq in Hoff0. exact Hoff0. }
    unfold marker, anchor. now rewrite HL. }
  assert (Hkeep : forall l : OSequence,
            (forall p, In p l -> In p others) ->
            filter (fun new_point : Point => new_point <> anchor)
              (map (reflected L) l) = map (reflected L) l).
  { intros l Hl. apply filter_all. apply Forall_map. apply Forall_forall.
    intros p Hp Heq. apply list_elem_of_In in Hp.
    apply reflected_anchor_inv in Heq; [|apply Ht_in; now apply Hl].
    pose proof (Hend_in p (Hl p Hp)) as Hlt.
    rewrite Heq, marker_end in Hlt. lia. }
  (* the first pass drops the marker *)
  assert (Hkept1 : filter (fun new_point : Point => new_point <> anchor)
                     (map (reflected L) (anchor_prefixed seq))
                   = map (reflected L) others).
  { replace (anchor_prefixed seq) with seq
      by (unfold seq, anchor_prefixed; now rewrite Hoff0).
    rewrite Hsplit, map_app, map_cons, filter_app.
    unfold marker at 1. rewrite reflected_marker.
    rewrite filter_cons_False by (intros Hne; now apply Hne).
    rewrite (Hkeep before), (Hkeep after).
    - unfold others. now rewrite map_app.
    - intros p Hp. unfold others. apply in_or_app. now right.
    - intros p Hp. unfold others. apply in_or_app. now left. }
  set (once := sort_by offset_of (map (reflected L) others)).
  assert (Hrev1 : reverse seq = Ok once).
  { rewrite (reverse_timed seq Ht). fold L. now rewrite Hkept1. }
  assert (Hperm1 : Permutation (map (reflected L) others) once)
    by apply sort_by_perm.
  assert (Honce : forall q, In q once ->
            exists p, In p others /\ q = reflected L p).
  { intros q Hq. apply (Permutation_in _ (Permutation_sym Hperm1)) in Hq.
    apply in_map_iff in Hq. destruct Hq as (p & <- & Hp). eauto. }
  assert (Hin_once : forall p, In p others -> In (reflected L p) once).
  { intros p Hp. apply (Permutation_in _ Hperm1). now apply in_map. }
  assert (Ht1 : Forall timed once).
  { apply Forall_forall. intros q Hq. apply list_elem_of_In in Hq.
    destruct (Honce q Hq) as (p & Hp & ->). apply timed_reflected. now apply Ht_in. }
  assert (HL1 : max_end once = L).
  { apply max_end_unique.
    - apply Forall_forall. intros q Hq. apply list_elem_of_In in Hq.
      destruct (Honce q Hq) as (p & Hp & ->).
      rewrite offset_of_reflected, duration_of_reflected.
      rewrite Forall_forall in Hpos.
      pose proof (Hpos p (proj2 (list_elem_of_In _ _) (Hothers p Hp))) as Hp0.
      simpl in Hp0. lia.
    - exists (reflected L first). split; [now apply Hin_once|].
      rewrite offset_of_reflected, duration_of_reflected. lia. }
  (* the reversed sequence starts after offset 0 *)
  assert (Hap1 : anchor_prefixed once = anchor :: once).
  { pose proof (Hin_once first Hfirst_in) as Hne.
    destruct once as [|h t] eqn:Eonce; [destruct Hne|].
    unfold anchor_prefixed.
    destruct (Z.eqb_spec (offset_of h) 0) as [Hh|_]; [|reflexivity].
    destruct (Honce h) as (p & Hp & Hhp); [now left|].
    rewrite Hhp, offset_of_reflected in Hh.
    pose proof (Hend_in p Hp). lia. }
  (* the second pass *)
  exists once,
    (sort_by offset_of
       (filter (fun new_point : Point => new_point <> anchor)
          (map (reflected L) (anchor :: once)))).
  split; [exact Hrev1|]. split.
  { rewrite (reverse_timed once Ht1). now rewrite HL1, Hap1. }
  rewrite <- sort_by_perm.
  rewrite map_cons, reflected_anchor. fold marker.
  rewrite filter_cons_True by exact Hmarker.
  rewrite <- Hperm0. apply perm_skip.
  change (map (reflected L) once) with (reflected L <$> once).
  rewrite <- Hperm1.
  change (reflected L <$> map (reflected L) others)
    with (map (reflected L) (map (reflected L) others)).
  rewrite map_map.
  rewrite (map_ext_in _ id); [|intros p Hp; apply reflected_involutive; now apply Ht_in].
  rewrite map_id. rewrite filter_all; [reflexivity|].
  apply Forall_forall. intros p Hp.
  rewrite Forall_forall in Hanchor. apply Hanchor.
  apply list_elem_of_In. apply Hothers. now apply list_elem_of_In.
Qed.

(** C2 (amended). For a sequence of well-formed points with non-negative
    offsets whose first point has offset 0, which contains no point
    consisting of the offset alone with value 0, and in which a point
    consisting of the offset alone with value [next_offset()] occurs at most
    once and only if every other point ends before [next_offset()]:
    reversing twice gives a permutation of the sequence. *)
Theorem reverse_twice_permutation (first : Point) (rest : OSequence) :
  let seq := first :: rest in
  let marker : Point := {[OFFSET_64 := VInt (max_end seq)]} in
  first !! OFFSET_64 = Some (VInt 0) ->
  Forall timed seq ->
  Forall (fun point => 0 <= offset_of point) seq ->
  Forall (fun point : Point => point <> anchor) seq ->
  (Forall (fun point : Point => point <> marker) seq \/
   exists before after : OSequence,
     seq = (before ++ marker :: after)%list /\
     Forall (fun point => offset_of point + duration_of point < max_end seq)
            (before ++ after)%list) ->
  exists once twice : OSequence,
    reverse seq = Ok once /\ reverse once = Ok twice /\ Permutation seq twice.
Proof.
  intros seq marker Hfirst Ht Hpos Hanchor [Hnone|(before & after & Hsplit & Hends)].
  - apply reverse_twice_without_marker; try assumption.
    rewrite Forall_forall in Hanchor, Hnone. apply Forall_forall.
    intros point Hin. split; [now apply Hanchor|now apply Hnone].
  - now apply (reverse_twice_trailing_marker first rest before after).
Qed.

Lemma reverse_twice_permutation_witness :
  let seq : OSequence :=
    [{[OFFSET_64 := VInt 0; DURATION_64 := VInt 1]}; {[OFFSET_64 := VInt 4]}] in
  exists once twice : OSequence,
    reverse seq = Ok once /\ reverse once = Ok twice /\ Permutation seq twice.
Proof.
  apply (reverse_twice_permutation
           {[OFFSET_64 := VInt 0; DURATION_64 := VInt 1]}
           [{[OFFSET_64 := VInt 4]}]).
  - reflexivity.
  - repeat constructor;
      solve [eexists; reflexivity | right; eexists; reflexivity | left; reflexivity].
  - repeat constructor; vm_compute; discriminate.
  - repeat constructor; apply (bool_decide_unpack _); vm_compute; exact I.
  - right. exists [{[OFFSET_64 := VInt 0; DURATION_64 := VInt 1]}], [].
    split; [reflexivity|]. repeat constructor.
Defined.
